(** * Corner-region alpha masking of [process_icon.py]

    A shallow embedding of [make_icon_transparent] (src/process_icon.py) and
    the properties of its masking pass, followed by the checking scripts
    that read its output (test_icon_processing.py,
    test_rounded_corners_final.py, test_corner_regions.py) and the element
    list of ui_tools/ui_analyzer.py.

    Modelling conventions.
    - Python integers are [Z]; [//] is [Z.div] (floor), [int(...)] on a
      float truncates toward zero ([Z.quot]).
    - Line 34, [int(width * corner_ratio)], is computed on IEEE doubles by
      [corner_size_double], as Python does, with its [OverflowError] and
      [ValueError].  [corner_size_of] takes the ratio as a rational [Q] and
      the exact product; the two can differ by one.  Everything after line
      34 depends on the ratio only through the integer [corner_size], and
      the pixel level results below are proved for every [corner_size].
    - [math.sqrt(dx**2 + dy**2) <= radius] is the comparison of the squared
      integers, guarded by [0 <= radius].  The test on doubles,
      [within_radius_double], agrees with it for every radius below
      [2 ^ 26], where the sum of the squares is a double and its rounded
      root compares with the radius as the exact root does; from [2 ^ 26]
      on the two can differ and the conversion can overflow.  The theorems
      that say that a call of the double model completes assume that
      bound.
    - A PIL image is its size and a row-major list of RGBA pixels;
      [getpixel] and [putpixel] raise [IndexError] out of range.  Pillow
      counts a negative coordinate from the opposite edge; the code
      modelled passes none.
    - Exceptions are values: a computation returns [Ok v] or [Raise e],
      where [e] stands for a subclass of [Exception].  The model of the
      whole call with its console adds the output of [print], which can
      fail, and the exceptions that [except Exception] does not catch.
    - A call of the recursive [traverse_node] takes one of the frames left
      below the interpreter's recursion limit. *)

From Stdlib Require Import ZArith QArith Qround Lia.
From Stdlib Require Import PrimFloat FloatOps SpecFloat.
From stdpp Require Import base list strings gmap.

Local Open Scope Z_scope.

(** ** Exceptions and the error monad *)

Inductive exn : Type :=
| IOError
| IndexError
| ZeroDivisionError
| OverflowError
| ValueError
| RecursionError
| UnicodeEncodeError.

Inductive result (A : Type) : Type :=
| Ok (a : A)
| Raise (e : exn).

Arguments Ok {A} a.
Arguments Raise {A} e.

#[global] Instance result_ret : MRet result := fun _ a => Ok a.
#[global] Instance result_bind : MBind result := fun _ _ f m =>
  match m with
  | Ok a => f a
  | Raise e => Raise e
  end.

(** [for x in xs: body]: the loop state is threaded through the body, an
    exception leaves the loop at once. *)
Fixpoint for_each {A S : Type} (xs : list A) (body : A -> S -> result S)
    (s : S) : result S :=
  match xs with
  | [] => Ok s
  | x :: xs' =>
      match body x s with
      | Ok s' => for_each xs' body s'
      | Raise e => Raise e
      end
  end.

(** [range(a, b)] *)
Definition range (a b : Z) : list Z := seqZ a (b - a).

(** ** Pixels and images *)

Record pixel : Type := RGBA { red : Z; green : Z; blue : Z; alpha : Z }.

Record image : Type := Image { width : Z; height : Z; data : list pixel }.

Definition in_bounds (img : image) (x y : Z) : bool :=
  (0 <=? x) && (x <? width img) && (0 <=? y) && (y <? height img).

Definition offset (img : image) (x y : Z) : nat :=
  Z.to_nat (y * width img + x).

Definition getpixel (img : image) (x y : Z) : result pixel :=
  if in_bounds img x y then
    match data img !! offset img x y with
    | Some p => Ok p
    | None => Raise IndexError
    end
  else Raise IndexError.

Definition putpixel (img : image) (x y : Z) (p : pixel) : result image :=
  if in_bounds img x y then
    if decide (offset img x y < length (data img))%nat then
      Ok (Image (width img) (height img) (<[offset img x y := p]> (data img)))
    else Raise IndexError
  else Raise IndexError.

(** An image as PIL holds it: [width * height] pixels. *)
Definition well_formed (img : image) : Prop :=
  0 <= width img /\ 0 <= height img /\
  Z.of_nat (length (data img)) = width img * height img.

(** ** Corner regions (lines 34-52) *)

Inductive corner : Type := TopLeft | TopRight | BottomLeft | BottomRight.

Record region : Type :=
  Region { center_x : Z; center_y : Z; radius : Z; corner_name : corner }.

(** [int(q)] for a float [q]: truncation toward zero. *)
Definition py_int (q : Q) : Z := Z.quot (Qnum q) (Zpos (Qden q)).

Definition corner_size_of (w : Z) (corner_ratio : Q) : Z :=
  py_int (inject_Z w * corner_ratio)%Q.

(** Line 34 as Python evaluates it, on IEEE doubles.  The integer [width]
    is converted to the nearest double (ties to even; [OverflowError] past
    the double range), multiplied by [corner_ratio] with one rounding, and
    [int] truncates the product ([OverflowError] on an infinity,
    [ValueError] on a NaN). *)

(** The rational a finite double stands for. *)
Definition float_value (f : float) : option Q :=
  match Prim2SF f with
  | S754_zero _ => Some 0%Q
  | S754_finite s m e =>
      let n := if s then Z.neg m else Z.pos m in
      Some (if 0 <=? e then inject_Z (n * 2 ^ e)
            else n # Pos.pow 2 (Z.to_pos (- e)))
  | S754_infinity _ | S754_nan => None
  end.

(** [float(n)] for an integer [n]. *)
Definition float_of_int (n : Z) : result float :=
  match binary_normalize prec emax n 0 false with
  | S754_infinity _ => Raise OverflowError
  | x => Ok (SF2Prim x)
  end.

(** [int(f)] for a float [f]. *)
Definition int_of_float (f : float) : result Z :=
  match float_value f with
  | Some q => Ok (py_int q)
  | None => if is_nan f then Raise ValueError else Raise OverflowError
  end.

(** [int(width * corner_ratio)] *)
Definition corner_size_double (w : Z) (corner_ratio : float) : result Z :=
  match float_of_int w with
  | Ok fw => int_of_float (fw * corner_ratio)%float
  | Raise e => Raise e
  end.

(** The doubles written [0.29], [0.3] and [0.6] in Python. *)
Definition double_0_29 : float := 0x1.28f5c28f5c28fp-2%float.
Definition double_0_3 : float := 0x1.3333333333333p-2%float.

Definition corner_regions (w h corner_size : Z) : list region :=
  [ Region (corner_size / 2) (corner_size / 2) (corner_size / 2) TopLeft;
    Region (w - corner_size / 2) (corner_size / 2) (corner_size / 2) TopRight;
    Region (corner_size / 2) (h - corner_size / 2) (corner_size / 2) BottomLeft;
    Region (w - corner_size / 2) (h - corner_size / 2) (corner_size / 2)
      BottomRight ].

(** ** Pixel classifier (lines 83-85) *)

Definition is_background (color_tolerance : Z) (p : pixel) : bool :=
  (255 - color_tolerance <=? red p) &&
  (255 - color_tolerance <=? green p) &&
  (255 - color_tolerance <=? blue p).

(** ** Alpha mask applier (lines 59-93) *)

(** [math.sqrt(dx ** 2 + dy ** 2) <= radius] *)
Definition within_radius (dx dy r : Z) : bool :=
  (0 <=? r) && (dx * dx + dy * dy <=? r * r).

(** The same test as Python evaluates it: the integer [dx ** 2 + dy ** 2]
    is converted to a double ([OverflowError] past the double range), its
    root is rounded to a double, and that double is compared with the
    integer [radius] exactly. *)
Definition sqrt_le_double (n r : Z) : result bool :=
  if n <? 0 then Raise ValueError
  else
    match float_of_int n with
    | Ok f =>
        match float_value (PrimFloat.sqrt f) with
        | Some q => Ok (Qle_bool q (inject_Z r))
        | None => Ok false
        end
    | Raise e => Raise e
    end.

Definition within_radius_double (dx dy r : Z) : result bool :=
  sqrt_le_double (dx * dx + dy * dy) r.

(** The local variables of the pixel loops. *)
Record loop_state : Type := LoopState {
  new_img : image;
  transparent_count : Z;
  corner_transparent : Z;
  corner_total : Z
}.

(** Body of the inner loop, lines 73-89. *)
Definition visit_pixel (color_tolerance : Z) (reg : region) (y x : Z)
    (st : loop_state) : result loop_state :=
  if within_radius (x - center_x reg) (y - center_y reg) (radius reg) then
    p ← getpixel (new_img st) x y;
    if is_background color_tolerance p then
      img' ← putpixel (new_img st) x y (RGBA (red p) (green p) (blue p) 0);
      mret (LoopState img' (transparent_count st + 1)
              (corner_transparent st + 1) (corner_total st + 1))
    else
      mret (LoopState (new_img st) (transparent_count st)
              (corner_transparent st) (corner_total st + 1))
  else mret st.

(** Bounding box of a region, lines 66-69: [(x1, y1, x2, y2)]. *)
Definition bounding_box (w h : Z) (reg : region) : Z * Z * Z * Z :=
  (Z.max 0 (center_x reg - radius reg),
   Z.max 0 (center_y reg - radius reg),
   Z.min w (center_x reg + radius reg),
   Z.min h (center_y reg + radius reg)).

(** Python's [a / b] on integers: a float, or [ZeroDivisionError]. *)
Definition py_truediv (a b : Z) : result Q :=
  if b =? 0 then Raise ZeroDivisionError
  else Ok (inject_Z a / inject_Z b)%Q.

(** What is printed for one region on line 93; [region_percentage] is
    [None] when the guard of line 91 skips the line. *)
Record region_stats : Type := RegionStats {
  stats_corner : corner;
  region_transparent : Z;
  region_total : Z;
  region_percentage : option Q
}.

(** The variables that live across the region loop. *)
Record pass_state : Type := PassState {
  pass_img : image;
  pass_transparent : Z;
  pass_reports : list region_stats
}.

(** Body of the region loop, lines 59-93. *)
Definition process_region (w h color_tolerance : Z) (reg : region)
    (ps : pass_state) : result pass_state :=
  let '(x1, y1, x2, y2) := bounding_box w h reg in
  st ← for_each (range y1 y2)
         (fun y => for_each (range x1 x2) (visit_pixel color_tolerance reg y))
         (LoopState (pass_img ps) (pass_transparent ps) 0 0);
  pct ← (if 0 <? corner_total st then
           q ← py_truediv (corner_transparent st) (corner_total st);
           mret (Some (q * 100)%Q)
         else mret None);
  mret (PassState (new_img st) (transparent_count st)
          (pass_reports ps ++
             [RegionStats (corner_name reg) (corner_transparent st)
                (corner_total st) pct])).

(** Lines 40-93 for a given [corner_size]: copy, then one sub-pass per
    region. *)
Definition apply_mask_sized (img : image) (corner_size color_tolerance : Z)
    : result pass_state :=
  for_each (corner_regions (width img) (height img) corner_size)
    (process_region (width img) (height img) color_tolerance)
    (PassState img 0 []).

(** Lines 31-93. *)
Definition apply_mask (img : image) (corner_ratio : Q) (color_tolerance : Z)
    : result pass_state :=
  apply_mask_sized img (corner_size_of (width img) corner_ratio)
    color_tolerance.

(** Lines 31-93 with the corner size of line 34 computed on doubles. *)
Definition apply_mask_double (img : image) (corner_ratio : float)
    (color_tolerance : Z) : result pass_state :=
  corner_size ← corner_size_double (width img) corner_ratio;
  apply_mask_sized img corner_size color_tolerance.

(** ** The whole function (lines 21-109), exceptions as values *)

(** The statistics block of lines 95-102. *)
Record run_statistics : Type := RunStatistics {
  per_region : list region_stats;
  total_pixels : Z;
  total_transparent : Z;
  transparency_percentage : Q
}.

(** The files the function can see: [open_rgba path] is [Image.open]
    followed by the conversion to RGBA, [save_png path img] is
    [Image.save]; both can raise. *)
Record file_system : Type := FileSystem {
  open_rgba : string -> result image;
  save_png : string -> image -> result unit
}.

(** Lines 95-102: the overall percentage is taken over all the pixels of
    the image. *)
Definition summarize (img : image) (ps : pass_state) : result run_statistics :=
  pct ← py_truediv (pass_transparent ps) (width img * height img);
  mret (RunStatistics (pass_reports ps) (width img * height img)
          (pass_transparent ps) (pct * 100)%Q).

(** Body of the [try] block. *)
Definition make_icon_transparent_body (fs : file_system)
    (input_path output_path : string) (corner_ratio : Q)
    (color_tolerance : Z) : result (image * run_statistics) :=
  img ← open_rgba fs input_path;
  ps ← apply_mask img corner_ratio color_tolerance;
  stats ← summarize img ps;
  _ ← save_png fs output_path (pass_img ps);
  mret (pass_img ps, stats).

(** How a call ends when every message can be printed and only
    [Exception]s are raised: it returns [None] to its caller, having
    printed either the statistics or the error message of line 109.  The
    other ways a call can end are in the model with the console below. *)
Inductive outcome : Type :=
| Returned (printed : result run_statistics) (saved : option image)
| Propagated (e : exn).

Definition make_icon_transparent (fs : file_system)
    (input_path output_path : string) (corner_ratio : Q)
    (color_tolerance : Z) : outcome :=
  match make_icon_transparent_body fs input_path output_path corner_ratio
          color_tolerance with
  | Ok (img, stats) => Returned (Ok stats) (Some img)
  | Raise e => Returned (Raise e) None
  end.

(** ** The call with its console (lines 21-109)

    The same function with what the model above leaves out: every [print]
    writes to a console that can refuse the text (all the messages hold
    characters outside ASCII), line 34 is computed on doubles, and what is
    raised need not be an [Exception]: [except Exception] lets
    [KeyboardInterrupt] and [SystemExit] through. *)

Inductive raised : Type :=
| Exc (e : exn)
| KeyboardInterrupt
| SystemExit.

Inductive completion (A : Type) : Type :=
| Normal (a : A)
| Thrown (r : raised).

Arguments Normal {A} a.
Arguments Thrown {A} r.

(** The [print] calls of the function, by line. *)
Inductive message : Type :=
| MsgConverted
| MsgImageSize (w h : Z)
| MsgCornerSize (corner_size : Z)
| MsgRegion (reg : region)
| MsgRegionStats (stats : region_stats)
| MsgSummaryTitle
| MsgTotalPixels (n : Z)
| MsgTransparentPixels (n : Z)
| MsgTransparency (percentage : Q)
| MsgTolerance (color_tolerance : Z)
| MsgRatio (corner_ratio : float)
| MsgSaved (output_path : string)
| MsgError (e : exn).

(** What the function runs on.  [image_open path] is [Image.open] followed,
    when the mode is not RGBA, by [convert]: the RGBA image and whether it
    was converted.  [image_save path img] is [Image.save].  [console out m]
    is [print] of the message [m] after the messages [out]. *)
Record runtime : Type := Runtime {
  image_open : string -> completion (image * bool);
  image_save : string -> image -> completion unit;
  console : list message -> message -> completion unit
}.

(** What the call leaves behind: the messages printed and the file written. *)
Record world : Type := World {
  printed : list message;
  saved : option (string * image)
}.

(** Statements that act on the world and complete normally or raise. *)
Definition io (A : Type) : Type := world -> world * completion A.

#[global] Instance io_ret : MRet io := fun _ a w => (w, Normal a).
#[global] Instance io_bind : MBind io := fun _ _ f m w =>
  match m w with
  | (w', Normal a) => f a w'
  | (w', Thrown r) => (w', Thrown r)
  end.

(** A statement that does nothing: the [if] not taken. *)
Definition skip : io unit := io_ret unit ().

Definition print (rt : runtime) (m : message) : io unit := fun w =>
  match console rt (printed w) m with
  | Normal _ => (World (printed w ++ [m]) (saved w), Normal ())
  | Thrown r => (w, Thrown r)
  end.

Definition open (rt : runtime) (path : string) : io (image * bool) :=
  fun w => (w, image_open rt path).

Definition save (rt : runtime) (path : string) (img : image) : io unit :=
  fun w =>
    match image_save rt path img with
    | Normal _ => (World (printed w) (Some (path, img)), Normal ())
    | Thrown r => (w, Thrown r)
    end.

(** A computation of the pixel model: what it raises is an [Exception]. *)
Definition lift {A : Type} (m : result A) : io A := fun w =>
  (w, match m with Ok a => Normal a | Raise e => Thrown (Exc e) end).

Fixpoint for_each_io {A S : Type} (xs : list A) (body : A -> S -> io S)
    (s : S) : io S :=
  match xs with
  | [] => io_ret S s
  | x :: xs' => s' ← body x s; for_each_io xs' body s'
  end.

(** Body of the region loop, lines 59-93, with its two prints: the header
    of line 63 before the pixel loops, the counts of line 93 after them
    when the guard of line 91 holds. *)
Definition process_region_io (rt : runtime) (w h color_tolerance : Z)
    (reg : region) (ps : pass_state) : io pass_state :=
  _ ← print rt (MsgRegion reg);
  ps' ← lift (process_region w h color_tolerance reg ps);
  _ ← match last (pass_reports ps') with
      | Some stats =>
          if 0 <? region_total stats then print rt (MsgRegionStats stats)
          else skip
      | None => skip
      end;
  io_ret pass_state ps'.

(** Body of the [try] block, lines 23-106. *)
Definition make_icon_transparent_try (rt : runtime)
    (input_path output_path : string) (corner_ratio : float)
    (color_tolerance : Z) : io unit :=
  opened ← open rt input_path;
  let '(img, converted) := (opened : image * bool) in
  _ ← (if converted then print rt MsgConverted else skip);
  corner_size ← lift (corner_size_double (width img) corner_ratio);
  _ ← print rt (MsgImageSize (width img) (height img));
  _ ← print rt (MsgCornerSize corner_size);
  ps ← for_each_io (corner_regions (width img) (height img) corner_size)
         (process_region_io rt (width img) (height img) color_tolerance)
         (PassState img 0 []);
  stats ← lift (summarize img ps);
  _ ← print rt MsgSummaryTitle;
  _ ← print rt (MsgTotalPixels (total_pixels stats));
  _ ← print rt (MsgTransparentPixels (total_transparent stats));
  _ ← print rt (MsgTransparency (transparency_percentage stats));
  _ ← print rt (MsgTolerance color_tolerance);
  _ ← print rt (MsgRatio corner_ratio);
  _ ← save rt output_path (pass_img ps);
  print rt (MsgSaved output_path).

(** The call, lines 21-109: the world it leaves and what it propagates to
    its caller, [None] when it returns.  An [Exception] raised in the [try]
    block runs the handler, whose own [print] can raise; anything else goes
    through. *)
Definition make_icon_transparent_run (rt : runtime)
    (input_path output_path : string) (corner_ratio : float)
    (color_tolerance : Z) : world * option raised :=
  match make_icon_transparent_try rt input_path output_path corner_ratio
          color_tolerance (World [] None) with
  | (w, Normal _) => (w, None)
  | (w, Thrown (Exc e)) =>
      match print rt (MsgError e) w with
      | (w', Normal _) => (w', None)
      | (w', Thrown r) => (w', Some r)
      end
  | (w, Thrown r) => (w, Some r)
  end.

(** A console that takes every text, one that takes only ASCII. *)
Definition utf8_console : list message -> message -> completion unit :=
  fun _ _ => Normal ().

Definition ascii_console : list message -> message -> completion unit :=
  fun _ _ => Thrown (Exc UnicodeEncodeError).

(** A run time raises only exceptions below [Exception]. *)
Definition raises_only_exceptions (rt : runtime) : Prop :=
  (forall path r, image_open rt path = Thrown r -> exists e, r = Exc e) /\
  (forall path img r,
      image_save rt path img = Thrown r -> exists e, r = Exc e) /\
  (forall out m r, console rt out m = Thrown r -> exists e, r = Exc e).

(** What a statement raises is below [Exception]. *)
Definition catchable {A : Type} (m : io A) : Prop :=
  forall w w' r, m w = (w', Thrown r) -> exists e, r = Exc e.

(** ** Test images *)

Definition white : pixel := RGBA 255 255 255 255.

Definition blank (w h : Z) (p : pixel) : image :=
  Image w h (replicate (Z.to_nat (w * h)) p).

(** A 3x2 image with two transparent pixels. *)
Definition sample_3x2 : image :=
  Image 3 2
    [ RGBA 255 255 255 0; RGBA 10 20 30 255; RGBA 250 250 250 0;
      RGBA 40 50 60 255; RGBA 70 80 90 255; RGBA 1 2 3 255 ].

(** ** Specification vocabulary *)

(** The pixel written on line 87. *)
Definition transparent_of (p : pixel) : pixel :=
  RGBA (red p) (green p) (blue p) 0.

(** What a pass leaves of a pixel it visited ([hit]) or not. *)
Definition mask_pixel (color_tolerance : Z) (hit : bool) (p : pixel) : pixel :=
  if hit && is_background color_tolerance p then transparent_of p else p.

(** [(x, y)] lies on or inside the circle of [reg]. *)
Definition in_circle (reg : region) (x y : Z) : bool :=
  within_radius (x - center_x reg) (y - center_y reg) (radius reg).

(** [(x, y)] is reached by the loops of [reg] and passes the distance
    test: the candidate set of the region. *)
Definition candidate (w h : Z) (reg : region) (x y : Z) : bool :=
  let '(x1, y1, x2, y2) := bounding_box w h reg in
  (x1 <=? x) && (x <? x2) && (y1 <=? y) && (y <? y2) && in_circle reg x y.

Definition covered (w h : Z) (regs : list region) (x y : Z) : bool :=
  existsb (fun reg => candidate w h reg x y) regs.

Definition background_at (color_tolerance : Z) (img : image) (x y : Z)
    : bool :=
  match getpixel img x y with
  | Ok p => is_background color_tolerance p
  | Raise _ => false
  end.

(** The coordinates the two nested loops run through, in order. *)
Definition grid (ys xs : list Z) : list (Z * Z) :=
  y ← ys; (fun x => (y, x)) <$> xs.

Fixpoint count_if {A : Type} (f : A -> bool) (l : list A) : Z :=
  match l with
  | [] => 0
  | a :: l' => (if f a then 1 else 0) + count_if f l'
  end.

Definition box_cells (w h : Z) (reg : region) : list (Z * Z) :=
  let '(x1, y1, x2, y2) := bounding_box w h reg in
  grid (range y1 y2) (range x1 x2).

(** Pixels of the box of [reg] that pass the distance test. *)
Definition tested_count (w h : Z) (reg : region) : Z :=
  count_if (fun c => in_circle reg c.2 c.1) (box_cells w h reg).

(** Those of them whose colour in [img] is classified background. *)
Definition cleared_count (color_tolerance : Z) (img : image) (reg : region)
    : Z :=
  count_if (fun c => in_circle reg c.2 c.1 &&
                     background_at color_tolerance img c.2 c.1)
    (box_cells (width img) (height img) reg).

(** [b] is [a] with the background pixels selected by [hit] cleared. *)
Definition masked_by (tol : Z) (hit : Z -> Z -> bool) (a b : image) : Prop :=
  width b = width a /\ height b = height a /\ well_formed b /\
  forall x y p,
    getpixel a x y = Ok p -> getpixel b x y = Ok (mask_pixel tol (hit x y) p).

(** [(x, y)] is one of the cells [cs] (cells are [(y, x)] pairs). *)
Definition visited (cs : list (Z * Z)) (x y : Z) : bool :=
  existsb (fun c => (x =? c.2) && (y =? c.1)) cs.

(** The guard of line 91 and the division of line 92. *)
Definition percentage_of (transparent total : Z) : option Q :=
  if 0 <? total
  then Some (inject_Z transparent / inject_Z total * 100)%Q
  else None.

Definition report_of (tol : Z) (img : image) (reg : region) : region_stats :=
  RegionStats (corner_name reg) (cleared_count tol img reg)
    (tested_count (width img) (height img) reg)
    (percentage_of (cleared_count tol img reg)
       (tested_count (width img) (height img) reg)).

Definition total_cleared (tol : Z) (img : image) (regs : list region) : Z :=
  foldr (fun reg acc => cleared_count tol img reg + acc) 0 regs.

Definition regions_of (img : image) (corner_size : Z) : list region :=
  corner_regions (width img) (height img) corner_size.

(** Line 87 runs at [(x, y)]: the pixel is a candidate of some region and
    its colour is classified background. *)
Definition written (tol : Z) (img : image) (ratio : Q) (x y : Z) : bool :=
  covered (width img) (height img)
    (regions_of img (corner_size_of (width img) ratio)) x y
  && background_at tol img x y.

(** The pass turned the pixel at [(x, y)] from visible to transparent. *)
Definition made_transparent (before after : image) (x y : Z) : Prop :=
  exists p,
    getpixel before x y = Ok p /\ alpha p <> 0 /\
    getpixel after x y = Ok (transparent_of p).

Definition in_box (w h : Z) (reg : region) (x y : Z) : bool :=
  let '(x1, y1, x2, y2) := bounding_box w h reg in
  (x1 <=? x) && (x <? x2) && (y1 <=? y) && (y <? y2).



Definition boxes_disjoint (w h : Z) (r1 r2 : region) : Prop :=
  forall x y, in_box w h r1 x y = true -> in_box w h r2 x y = true -> False.

Definition pairwise_disjoint_boxes (w h : Z) (regs : list region) : Prop :=
  forall (i j : nat) (r1 r2 : region),
    regs !! i = Some r1 -> regs !! j = Some r2 -> i <> j ->
    boxes_disjoint w h r1 r2.

(** ** The checking script [test_icon_processing.py]

    [test_icon_processing] (lines 10-69) on the image it has opened; the
    file it reads is the RGBA file written by [make_icon_transparent], so
    every pixel has four channels and the mode test of line 53 holds. *)

(** What the script prints. *)
Record icon_check : Type := IconCheck {
  corner_pixels : list (corner * pixel);
  center_pixel : pixel;
  check_total : Z;
  check_transparent : Z;
  check_percentage : Q
}.

(** Body of the loop of lines 33-44. *)
Definition check_corner (img : image) (c : Z * Z * corner)
    (seen : list (corner * pixel)) : result (list (corner * pixel)) :=
  let '(x, y, name) := c in
  pixel ← getpixel img x y;
  mret (seen ++ [(name, pixel)]).

(** Body of the loop of lines 58-61. *)
Definition count_if_transparent (img : image) (y x : Z)
    (transparent_count : Z) : result Z :=
  pixel ← getpixel img x y;
  mret (if alpha pixel =? 0 then transparent_count + 1
        else transparent_count).

Definition test_icon_processing (img : image) : result icon_check :=
  let w := width img in
  let h := height img in
  corners ← for_each
    [ (0, 0, TopLeft); (w - 1, 0, TopRight);
      (0, h - 1, BottomLeft); (w - 1, h - 1, BottomRight) ]
    (check_corner img) [];
  center ← getpixel img (w / 2) (h / 2);
  count ← for_each (range 0 h)
    (fun y => for_each (range 0 w) (count_if_transparent img y)) 0;
  pct ← py_truediv count (w * h);
  mret (IconCheck corners center (w * h) count (pct * 100)%Q).

(** The pixel at [(x, y)] exists and has alpha 0. *)
Definition transparent_at (img : image) (x y : Z) : bool :=
  match getpixel img x y with
  | Ok p => alpha p =? 0
  | Raise _ => false
  end.

(** All the cells of an image, row by row. *)
Definition all_cells (img : image) : list (Z * Z) :=
  grid (range 0 (height img)) (range 0 (width img)).

(** ** The region statistics of [test_rounded_corners_final.py]

    Lines 25-36 and 96-122 of [test_rounded_corners]: the regions for a
    quarter of the width and, per region, the pixels inside the circle and
    those of them with alpha 0.  As above the image is the RGBA file
    written by [make_icon_transparent]. *)

(** Lines 26-36. *)
Definition corner_centers (w h : Z) : list region :=
  let corner_size := w / 4 in
  let radius := corner_size / 2 in
  [ Region radius radius radius TopLeft;
    Region (w - radius) radius radius TopRight;
    Region radius (h - radius) radius BottomLeft;
    Region (w - radius) (h - radius) radius BottomRight ].

(** The two counters of lines 99-100. *)
Record region_counters : Type := RegionCounters {
  counted_transparent : Z;
  counted_total : Z
}.

(** Body of the inner loop, lines 110-118. *)
Definition count_region_pixel (img : image) (reg : region) (y x : Z)
    (st : region_counters) : result region_counters :=
  if within_radius (x - center_x reg) (y - center_y reg) (radius reg) then
    pixel ← getpixel img x y;
    if alpha pixel =? 0 then
      mret (RegionCounters (counted_transparent st + 1) (counted_total st + 1))
    else
      mret (RegionCounters (counted_transparent st) (counted_total st + 1))
  else mret st.

(** Body of the region loop, lines 98-122. *)
Definition count_region (img : image) (reg : region)
    (printed : list region_stats) : result (list region_stats) :=
  let '(x1, y1, x2, y2) := bounding_box (width img) (height img) reg in
  st ← for_each (range y1 y2)
         (fun y => for_each (range x1 x2) (count_region_pixel img reg y))
         (RegionCounters 0 0);
  pct ← (if 0 <? counted_total st then
           q ← py_truediv (counted_transparent st) (counted_total st);
           mret (Some (q * 100)%Q)
         else mret None);
  mret (printed ++
          [RegionStats (corner_name reg) (counted_transparent st)
             (counted_total st) pct]).

Definition region_statistics (img : image) : result (list region_stats) :=
  for_each (corner_centers (width img) (height img)) (count_region img) [].

(** ** The rectangular check of [test_corner_regions.py]

    [test_corner_regions] (lines 9-118) on the RGBA image it has opened.
    Its corner regions are the four [corner_size x corner_size] squares. *)








(** ** The UI dump analyser [ui_tools/ui_analyzer.py]

    The element list built from the XML dump and the searches made on it.
    An XML element is its attribute dictionary and its children;
    [str.lower] is a parameter of the search. *)

#[local] Unset Elimination Schemes.
Inductive xml_node : Type :=
| XmlNode (attrib : gmap string string) (children : list xml_node).
#[local] Set Elimination Schemes.

(** The dictionary built on lines 58-69. *)
Record ui_element : Type := UiElement {
  ui_depth : Z;
  ui_text : string;
  ui_content_desc : string;
  ui_class : string;
  ui_package : string;
  ui_resource_id : string;
  ui_clickable : bool;
  ui_enabled : bool;
  ui_bounds : string;
  ui_index : string
}.

(** [attrs.get(key, fallback)] *)
Definition attr_get (attrs : gmap string string) (key fallback : string)
    : string :=
  default fallback (attrs !! key).

(** [needle in haystack] on strings. *)
Fixpoint contains (needle haystack : string) : bool :=
  String.prefix needle haystack ||
  match haystack with
  | EmptyString => false
  | String _ rest => contains needle rest
  end.

(** Truth value of a string: it is not empty. *)
Definition truthy (s : string) : bool := negb (String.eqb s "").

Definition make_element (depth : Z) (attrs : gmap string string)
    : ui_element :=
  UiElement depth
    (attr_get attrs "text" "")
    (attr_get attrs "content-desc" "")
    (attr_get attrs "class" "")
    (attr_get attrs "package" "")
    (attr_get attrs "resource-id" "")
    (String.eqb (attr_get attrs "clickable" "false") "true")
    (String.eqb (attr_get attrs "enabled" "false") "true")
    (attr_get attrs "bounds" "")
    (attr_get attrs "index" "").

(** The test of lines 72-73. *)
Definition is_useful (element : ui_element) : bool :=
  truthy (ui_text element) || truthy (ui_content_desc element) ||
  ui_clickable element || contains "EditText" (ui_class element).

(** [traverse_node], lines 55-78; the list [elements] it appends to is
    threaded through.  Every call takes a frame of the interpreter's stack:
    [frames] is the number of frames left below the recursion limit, and a
    call made when none is left raises [RecursionError]. *)
Fixpoint traverse_node (frames : nat) (node : xml_node) (depth : Z)
    (elements : list ui_element) : result (list ui_element) :=
  match frames with
  | O => Raise RecursionError
  | S frames' =>
      match node with
      | XmlNode attrs children =>
          let element := make_element depth attrs in
          let elements :=
            if is_useful element then elements ++ [element] else elements in
          for_each children
            (fun child acc => traverse_node frames' child (depth + 1) acc)
            elements
      end
  end.

(** [parse_ui_elements], lines 47-85; [parse] is [ET.parse] followed by
    [getroot], [print_error] the [print] of the handler on line 84.  What
    the [try] block raises, from the parser or from the traversal, ends in
    the handler, which prints and returns the empty list. *)
Definition parse_ui_elements (frames : nat)
    (parse : string -> result xml_node) (print_error : exn -> result unit)
    (xml_file : string) : result (list ui_element) :=
  match root ← parse xml_file; traverse_node frames root 0 [] with
  | Ok elements => Ok elements
  | Raise e => _ ← print_error e; Ok []
  end.

(** [find_elements_by_text], lines 87-94. *)
Definition find_elements_by_text (lower : string -> string)
    (elements : list ui_element) (search_text : string) : list ui_element :=
  foldl
    (fun found element =>
       if contains (lower search_text) (lower (ui_text element)) ||
          contains (lower search_text) (lower (ui_content_desc element))
       then found ++ [element] else found)
    [] elements.

(** The list comprehensions of lines 153 and 158 in [main]. *)
Definition clickable_elements (elements : list ui_element)
    : list ui_element :=
  List.filter ui_clickable elements.

Definition input_elements (elements : list ui_element) : list ui_element :=
  List.filter
    (fun e => contains "EditText" (ui_class e) || contains "Input" (ui_class e))
    elements.

(** [node] occurs in the tree under [root], [depth] levels down. *)
Inductive node_at (root : xml_node) : Z -> xml_node -> Prop :=
| node_at_root : node_at root 0 root
| node_at_child (depth : Z) (attrs : gmap string string)
    (children : list xml_node) (child : xml_node) :
    node_at root depth (XmlNode attrs children) ->
    child ∈ children ->
    node_at root (depth + 1) child.

Definition node_attrib (node : xml_node) : gmap string string :=
  match node with XmlNode attrs _ => attrs end.

(** The elements of a tree in document order, whatever its depth: what
    the traversal lists when the stack is deep enough. *)
Fixpoint elements_of_tree (node : xml_node) (depth : Z)
    (elements : list ui_element) : list ui_element :=
  match node with
  | XmlNode attrs children =>
      let element := make_element depth attrs in
      let elements :=
        if is_useful element then elements ++ [element] else elements in
      (fix elements_of_children (cs : list xml_node) (acc : list ui_element)
         : list ui_element :=
         match cs with
         | [] => acc
         | child :: cs' =>
             elements_of_children cs' (elements_of_tree child (depth + 1) acc)
         end) children elements
  end.

Definition elements_of_children (depth : Z) (children : list xml_node)
    (elements : list ui_element) : list ui_element :=
  foldl (fun acc child => elements_of_tree child depth acc) elements children.

(** The number of levels of a tree: the frames its traversal needs. *)
Fixpoint tree_height (node : xml_node) : nat :=
  match node with
  | XmlNode _ children => S (foldr Nat.max 0%nat (List.map tree_height children))
  end.

(** A chain of [n] nested nodes over a leaf with the text "OK". *)
Fixpoint chain (n : nat) : xml_node :=
  match n with
  | O => XmlNode {[ "text" := "OK" ]} []
  | S n' => XmlNode ∅ [chain n']
  end.

(** The test of [find_elements_by_text]. *)
Definition matches_text (lower : string -> string) (search_text : string)
    (element : ui_element) : bool :=
  contains (lower search_text) (lower (ui_text element)) ||
  contains (lower search_text) (lower (ui_content_desc element)).

(** Induction on XML trees: the property holds for a node when it holds
    for all its children. *)
Definition xml_node_ind (P : xml_node -> Prop)
    (step : forall attrs children,
        Forall P children -> P (XmlNode attrs children)) :
  forall node, P node :=
  fix go (node : xml_node) : P node :=
    match node with
    | XmlNode attrs children =>
        step attrs children
          ((fix go_list (cs : list xml_node) : Forall P cs :=
              match cs with
              | [] => @List.Forall_nil _ P
              | c :: cs' => @List.Forall_cons _ P c cs' (go c) (go_list cs')
              end) children)
    end.

(** ** The error monad and the loops *)

Lemma bind_Ok {A B : Type} (f : A -> result B) (a : A) :
  (Ok a ≫= f) = f a.
Proof. reflexivity. Qed.

Lemma for_each_app {A S : Type} (xs ys : list A) (body : A -> S -> result S)
    (s : S) :
  for_each (xs ++ ys) body s = (for_each xs body s ≫= for_each ys body).
Proof.
  revert s. induction xs as [|x xs IH]; intros s; simpl; [reflexivity|].
  destruct (body x s) as [s'|e]; [apply IH | reflexivity].
Qed.

Lemma for_each_fmap {A B S : Type} (g : A -> B) (xs : list A)
    (body : B -> S -> result S) (s : S) :
  for_each (g <$> xs) body s = for_each xs (fun a => body (g a)) s.
Proof.
  revert s. induction xs as [|x xs IH]; intros s; simpl; [reflexivity|].
  destruct (body (g x) s) as [s'|e]; [apply IH | reflexivity].
Qed.

(** The two nested loops are one loop over [grid]. *)
Lemma for_each_grid {S : Type} (ys xs : list Z)
    (body : Z -> Z -> S -> result S) (s : S) :
  for_each ys (fun y => for_each xs (body y)) s
  = for_each (grid ys xs) (fun c => body c.1 c.2) s.
Proof.
  revert s. induction ys as [|y ys IH]; intros s; [reflexivity|].
  change (grid (y :: ys) xs) with (((fun x => (y, x)) <$> xs) ++ grid ys xs).
  rewrite for_each_app, for_each_fmap. simpl.
  destruct (for_each xs (body y) s) as [s'|e]; [apply IH | reflexivity].
Qed.

Lemma elem_of_range (a b k : Z) : k ∈ range a b <-> a <= k < b.
Proof. unfold range. rewrite elem_of_seqZ. lia. Qed.

Lemma elem_of_grid (ys xs : list Z) (y x : Z) :
  (y, x) ∈ grid ys xs <-> y ∈ ys /\ x ∈ xs.
Proof.
  unfold grid. rewrite list_elem_of_bind. split.
  - intros (y' & Hin & Hy'). apply list_elem_of_fmap in Hin as (x' & Heq & Hx').
    inversion Heq; subst. auto.
  - intros [Hy Hx]. exists y. split; [|exact Hy].
    apply list_elem_of_fmap. eauto.
Qed.

(** ** Reading and writing pixels of a well-formed image *)

Lemma in_bounds_spec (img : image) (x y : Z) :
  in_bounds img x y = true <-> 0 <= x < width img /\ 0 <= y < height img.
Proof.
  unfold in_bounds. rewrite !andb_true_iff, !Z.leb_le, !Z.ltb_lt. lia.
Qed.

Lemma offset_lt (img : image) (x y : Z) :
  well_formed img -> in_bounds img x y = true ->
  (offset img x y < length (data img))%nat.
Proof.
  intros (Hw & Hh & Hlen) Hin. apply in_bounds_spec in Hin.
  unfold offset. apply Nat2Z.inj_lt. rewrite Hlen, Z2Nat.id by nia. nia.
Qed.

Lemma offset_inj (img : image) (x y x' y' : Z) :
  in_bounds img x y = true -> in_bounds img x' y' = true ->
  offset img x y = offset img x' y' -> x = x' /\ y = y'.
Proof.
  intros Hin Hin' Heq. apply in_bounds_spec in Hin, Hin'.
  unfold offset in Heq. apply Z2Nat.inj in Heq; [|nia|nia].
  assert (y = y') by nia. subst. lia.
Qed.

Lemma getpixel_in_bounds (img : image) (x y : Z) (p : pixel) :
  getpixel img x y = Ok p -> in_bounds img x y = true.
Proof. unfold getpixel. destruct (in_bounds img x y); [reflexivity|discriminate]. Qed.

Lemma getpixel_total (img : image) (x y : Z) :
  well_formed img -> in_bounds img x y = true ->
  exists p, getpixel img x y = Ok p.
Proof.
  intros Hwf Hin. unfold getpixel. rewrite Hin.
  destruct (lookup_lt_is_Some_2 (data img) (offset img x y)
              (offset_lt img x y Hwf Hin)) as [p Hp].
  rewrite Hp. eauto.
Qed.

Lemma putpixel_spec (img : image) (x y : Z) (q : pixel) :
  well_formed img -> in_bounds img x y = true ->
  exists img',
    putpixel img x y q = Ok img' /\
    width img' = width img /\ height img' = height img /\
    well_formed img' /\
    forall x' y',
      getpixel img' x' y'
      = if (x' =? x) && (y' =? y) then Ok q else getpixel img x' y'.
Proof.
  intros Hwf Hin. pose proof (offset_lt img x y Hwf Hin) as Hlt.
  unfold putpixel. rewrite Hin. rewrite decide_True by exact Hlt.
  eexists. split; [reflexivity|]. simpl. repeat split; try apply Hwf.
  - simpl. rewrite length_insert. apply Hwf.
  - intros x' y'. unfold getpixel, in_bounds, offset. simpl.
    fold (in_bounds img x' y'). fold (offset img x y) (offset img x' y').
    destruct (in_bounds img x' y') eqn:Hin'.
    + destruct ((x' =? x) && (y' =? y)) eqn:Heq.
      * apply andb_true_iff in Heq as [->%Z.eqb_eq ->%Z.eqb_eq].
        rewrite list_lookup_insert_eq by exact Hlt. reflexivity.
      * rewrite list_lookup_insert_ne; [reflexivity|].
        intros Hoff. apply (offset_inj img) in Hoff as [-> ->]; [|assumption..].
        rewrite !Z.eqb_refl in Heq. discriminate.
    + destruct ((x' =? x) && (y' =? y)) eqn:Heq; [|reflexivity].
      apply andb_true_iff in Heq as [->%Z.eqb_eq ->%Z.eqb_eq]. congruence.
Qed.

(** Two well-formed images of one size with the same pixels are equal. *)
Lemma image_ext (a b : image) :
  well_formed a -> well_formed b ->
  width a = width b -> height a = height b ->
  (forall x y, in_bounds a x y = true -> getpixel a x y = getpixel b x y) ->
  a = b.
Proof.
  destruct a as [wa ha da], b as [wb hb db]. simpl.
  intros (Hwa & Hha & Hla) (Hwb & Hhb & Hlb) <- <- Hpix. simpl in *.
  f_equal. apply list_eq. intros i.
  destruct (decide (i < length da)%nat) as [Hi|Hi].
  - assert (0 < wa) as Hpos by nia.
    set (x := Z.of_nat i mod wa). set (y := Z.of_nat i / wa).
    assert (Hx : 0 <= x < wa) by (apply Z.mod_pos_bound; lia).
    assert (Hi' : Z.of_nat i = y * wa + x).
    { unfold x, y. rewrite Z.mul_comm. apply Z.div_mod. lia. }
    assert (Hy : 0 <= y < ha) by nia.
    assert (Hin : in_bounds (Image wa ha da) x y = true).
    { apply in_bounds_spec. simpl. lia. }
    specialize (Hpix x y Hin). unfold getpixel in Hpix. rewrite Hin in Hpix.
    assert (Hin' : in_bounds (Image wa ha db) x y = true).
    { apply in_bounds_spec. simpl. lia. }
    rewrite Hin' in Hpix. unfold offset in Hpix. simpl in Hpix.
    rewrite <- Hi', Nat2Z.id in Hpix.
    destruct (lookup_lt_is_Some_2 da i Hi) as [pa Hpa].
    destruct (lookup_lt_is_Some_2 db i ltac:(lia)) as [pb Hpb].
    rewrite Hpa, Hpb in *. congruence.
  - rewrite !lookup_ge_None_2 by lia. reflexivity.
Qed.

(** ** The classifier ignores alpha *)

Lemma is_background_mask_pixel (tol : Z) (hit : bool) (p : pixel) :
  is_background tol (mask_pixel tol hit p) = is_background tol p.
Proof.
  unfold mask_pixel. destruct (hit && is_background tol p); reflexivity.
Qed.

Lemma mask_pixel_twice (tol : Z) (h1 h2 : bool) (p : pixel) :
  mask_pixel tol h2 (mask_pixel tol h1 p) = mask_pixel tol (h1 || h2) p.
Proof.
  unfold mask_pixel at 1. rewrite is_background_mask_pixel.
  unfold mask_pixel.
  destruct h1, h2, (is_background tol p); reflexivity.
Qed.

(** ** Images related by a masking step *)

Lemma masked_by_refl (tol : Z) (a : image) :
  well_formed a -> masked_by tol (fun _ _ => false) a a.
Proof. intros Hwf. repeat split; try apply Hwf. intros x y p Hp. exact Hp. Qed.

Lemma masked_by_trans (tol : Z) (h1 h2 : Z -> Z -> bool) (a b c : image) :
  masked_by tol h1 a b -> masked_by tol h2 b c ->
  masked_by tol (fun x y => h1 x y || h2 x y) a c.
Proof.
  intros (Hw1 & Hh1 & _ & H1) (Hw2 & Hh2 & Hwf & H2).
  repeat split; try apply Hwf; try congruence.
  intros x y p Hp. rewrite <- mask_pixel_twice. apply H2, H1, Hp.
Qed.

Lemma masked_by_ext (tol : Z) (h1 h2 : Z -> Z -> bool) (a b : image) :
  (forall x y, in_bounds a x y = true -> h1 x y = h2 x y) ->
  masked_by tol h1 a b -> masked_by tol h2 a b.
Proof.
  intros Hext (Hw & Hh & Hwf & H). repeat split; try apply Hwf; try assumption.
  intros x y p Hp. rewrite <- Hext by (eapply getpixel_in_bounds, Hp).
  apply H, Hp.
Qed.

Lemma masked_by_in_bounds (tol : Z) (h : Z -> Z -> bool) (a b : image)
    (x y : Z) :
  masked_by tol h a b -> in_bounds b x y = in_bounds a x y.
Proof. intros (Hw & Hh & _). unfold in_bounds. rewrite Hw, Hh. reflexivity. Qed.

Lemma masked_by_background_at (tol : Z) (h : Z -> Z -> bool) (a b : image)
    (x y : Z) :
  well_formed a -> masked_by tol h a b ->
  background_at tol b x y = background_at tol a x y.
Proof.
  intros Hwf Hm. unfold background_at.
  destruct (in_bounds a x y) eqn:Hin.
  - destruct (getpixel_total a x y Hwf Hin) as [p Hp].
    destruct Hm as (_ & _ & _ & H). rewrite (H _ _ _ Hp), Hp.
    apply is_background_mask_pixel.
  - assert (in_bounds b x y = false) as Hinb
      by (rewrite (masked_by_in_bounds _ _ _ _ _ _ Hm); exact Hin).
    unfold getpixel. rewrite Hin, Hinb. reflexivity.
Qed.

(** ** One visit, then a run of visits *)

Lemma visit_pixel_spec (tol : Z) (reg : region) (y x : Z) (st : loop_state) :
  well_formed (new_img st) -> in_bounds (new_img st) x y = true ->
  exists st',
    visit_pixel tol reg y x st = Ok st' /\
    masked_by tol (fun x' y' => (x' =? x) && (y' =? y) && in_circle reg x y)
      (new_img st) (new_img st') /\
    corner_total st'
    = corner_total st + (if in_circle reg x y then 1 else 0) /\
    corner_transparent st'
    = corner_transparent st
      + (if in_circle reg x y && background_at tol (new_img st) x y
         then 1 else 0) /\
    transparent_count st'
    = transparent_count st
      + (if in_circle reg x y && background_at tol (new_img st) x y
         then 1 else 0).
Proof.
  intros Hwf Hin. unfold visit_pixel, background_at. fold (in_circle reg x y).
  destruct (in_circle reg x y) eqn:Hc.
  - destruct (getpixel_total _ x y Hwf Hin) as [p Hp]. rewrite Hp, bind_Ok.
    destruct (is_background tol p) eqn:Hbg.
    + destruct (putpixel_spec (new_img st) x y (transparent_of p) Hwf Hin)
        as (img' & Hput & Hw & Hh & Hwf' & Hget).
      fold (transparent_of p). rewrite Hput, bind_Ok.
      eexists. split; [reflexivity|]. simpl. repeat split; try apply Hwf'; auto.
      intros x' y' p' Hp'. rewrite Hget.
      destruct ((x' =? x) && (y' =? y)) eqn:Heq; simpl.
      * apply andb_true_iff in Heq as [->%Z.eqb_eq ->%Z.eqb_eq].
        assert (p' = p) as -> by congruence.
        unfold mask_pixel. rewrite Hbg. reflexivity.
      * rewrite Hp'. reflexivity.
    + eexists. split; [reflexivity|]. simpl.
      repeat split; try apply Hwf; try lia.
      intros x' y' p' Hp'. rewrite Hp'. f_equal. unfold mask_pixel.
      destruct ((x' =? x) && (y' =? y)) eqn:Heq; simpl; [|reflexivity].
      apply andb_true_iff in Heq as [->%Z.eqb_eq ->%Z.eqb_eq].
      assert (p' = p) as -> by congruence. rewrite Hbg. reflexivity.
  - eexists. split; [reflexivity|]. simpl. repeat split; try apply Hwf; try lia.
    intros x' y' p' Hp'. rewrite Hp', andb_false_r. reflexivity.
Qed.

Lemma count_if_ext {A : Type} (f g : A -> bool) (l : list A) :
  (forall a, a ∈ l -> f a = g a) -> count_if f l = count_if g l.
Proof.
  induction l as [|a l IH]; intros Hfg; simpl; [reflexivity|].
  rewrite Hfg by left. rewrite IH; [reflexivity|].
  intros b Hb. apply Hfg. right. exact Hb.
Qed.

Lemma visit_cells_spec (tol : Z) (reg : region) (cs : list (Z * Z))
    (st : loop_state) :
  well_formed (new_img st) ->
  (forall c, c ∈ cs -> in_bounds (new_img st) c.2 c.1 = true) ->
  exists st',
    for_each cs (fun c => visit_pixel tol reg c.1 c.2) st = Ok st' /\
    masked_by tol (fun x y => visited cs x y && in_circle reg x y)
      (new_img st) (new_img st') /\
    corner_total st'
    = corner_total st + count_if (fun c => in_circle reg c.2 c.1) cs /\
    corner_transparent st'
    = corner_transparent st
      + count_if (fun c => in_circle reg c.2 c.1 &&
                           background_at tol (new_img st) c.2 c.1) cs /\
    transparent_count st'
    = transparent_count st
      + count_if (fun c => in_circle reg c.2 c.1 &&
                           background_at tol (new_img st) c.2 c.1) cs.
Proof.
  revert st. induction cs as [|[y x] cs IH]; intros st Hwf Hcs.
  - exists st. simpl. split; [reflexivity|].
    split; [apply masked_by_refl, Hwf | lia].
  - destruct (visit_pixel_spec tol reg y x st Hwf) as
      (st1 & Hv & Hm1 & Ht1 & Hc1 & Hn1).
    { apply (Hcs (y, x)). left. }
    assert (Hwf1 : well_formed (new_img st1)) by apply Hm1.
    destruct (IH st1 Hwf1) as (st2 & Hf & Hm2 & Ht2 & Hc2 & Hn2).
    { intros c Hc. rewrite (masked_by_in_bounds _ _ _ _ _ _ Hm1).
      apply Hcs. right. exact Hc. }
    exists st2. simpl. rewrite Hv. split; [exact Hf|].
    assert (Hcnt :
      count_if (fun c => in_circle reg c.2 c.1 &&
                         background_at tol (new_img st1) c.2 c.1) cs
      = count_if (fun c => in_circle reg c.2 c.1 &&
                           background_at tol (new_img st) c.2 c.1) cs).
    { apply count_if_ext. intros c _.
      rewrite (masked_by_background_at _ _ _ _ _ _ Hwf Hm1). reflexivity. }
    rewrite Hcnt in Hc2, Hn2.
    split; [|lia].
    eapply masked_by_ext; [|exact (masked_by_trans _ _ _ _ _ _ Hm1 Hm2)].
    intros x' y' _. simpl. unfold visited. simpl.
    destruct (x' =? x) eqn:Hx; destruct (y' =? y) eqn:Hy; simpl;
      try reflexivity.
    apply Z.eqb_eq in Hx, Hy. subst.
    destruct (in_circle reg x y); simpl; [reflexivity|].
    rewrite andb_false_r. reflexivity.
Qed.

(** ** One region *)

Lemma visited_spec (cs : list (Z * Z)) (x y : Z) :
  visited cs x y = true <-> (y, x) ∈ cs.
Proof.
  unfold visited. rewrite existsb_exists. split.
  - intros ([y' x'] & Hin & Heq). simpl in Heq.
    apply andb_true_iff in Heq as [->%Z.eqb_eq ->%Z.eqb_eq].
    apply list_elem_of_In. exact Hin.
  - intros Hin. exists (y, x). split; [apply list_elem_of_In, Hin|].
    simpl. rewrite !Z.eqb_refl. reflexivity.
Qed.

Lemma candidate_visited (w h : Z) (reg : region) (x y : Z) :
  visited (box_cells w h reg) x y && in_circle reg x y
  = candidate w h reg x y.
Proof.
  unfold box_cells, candidate.
  destruct (bounding_box w h reg) as [[[x1 y1] x2] y2].
  f_equal. apply eq_true_iff_eq.
  rewrite visited_spec, elem_of_grid, !elem_of_range.
  rewrite !andb_true_iff, !Z.leb_le, !Z.ltb_lt. lia.
Qed.

Lemma box_cells_in_bounds (img : image) (reg : region) (c : Z * Z) :
  c ∈ box_cells (width img) (height img) reg ->
  in_bounds img c.2 c.1 = true.
Proof.
  unfold box_cells, bounding_box. destruct c as [y x].
  rewrite elem_of_grid, !elem_of_range. simpl. intros Hc.
  apply in_bounds_spec. lia.
Qed.

Lemma cleared_count_masked (tol : Z) (hit : Z -> Z -> bool) (a b : image)
    (reg : region) :
  well_formed a -> masked_by tol hit a b ->
  cleared_count tol b reg = cleared_count tol a reg.
Proof.
  intros Hwf Hm. unfold cleared_count.
  destruct Hm as (Hw & Hh & Hm). rewrite Hw, Hh.
  apply count_if_ext. intros c _.
  rewrite (masked_by_background_at tol hit a b); [reflexivity|exact Hwf|].
  repeat split; try apply Hm; assumption.
Qed.

Lemma report_of_masked (tol : Z) (hit : Z -> Z -> bool) (a b : image)
    (reg : region) :
  well_formed a -> masked_by tol hit a b ->
  report_of tol b reg = report_of tol a reg.
Proof.
  intros Hwf Hm. unfold report_of.
  rewrite (cleared_count_masked tol hit a b reg Hwf Hm).
  destruct Hm as (-> & -> & _). reflexivity.
Qed.

Lemma process_region_spec (tol : Z) (reg : region) (ps : pass_state) :
  well_formed (pass_img ps) ->
  exists ps',
    process_region (width (pass_img ps)) (height (pass_img ps)) tol reg ps
    = Ok ps' /\
    masked_by tol
      (candidate (width (pass_img ps)) (height (pass_img ps)) reg)
      (pass_img ps) (pass_img ps') /\
    pass_transparent ps'
    = pass_transparent ps + cleared_count tol (pass_img ps) reg /\
    pass_reports ps' = pass_reports ps ++ [report_of tol (pass_img ps) reg].
Proof.
  intros Hwf. set (w := width (pass_img ps)). set (h := height (pass_img ps)).
  pose proof (visit_cells_spec tol reg (box_cells w h reg)
                (LoopState (pass_img ps) (pass_transparent ps) 0 0) Hwf
                (box_cells_in_bounds (pass_img ps) reg))
    as (st & Hloop & Hm & Ht & Hc & Hn).
  simpl in Hm, Ht, Hc, Hn.
  unfold process_region. unfold box_cells in Hloop.
  destruct (bounding_box w h reg) as [[[x1 y1] x2] y2] eqn:Hbox.
  rewrite for_each_grid, Hloop, bind_Ok.
  change (count_if _ (box_cells w h reg))
    with (cleared_count tol (pass_img ps) reg) in Hc, Hn.
  assert (Ht' : corner_total st = tested_count w h reg).
  { rewrite Ht. unfold tested_count, box_cells. rewrite Hbox. reflexivity. }
  assert (Hpct :
    (if 0 <? corner_total st
     then q ← py_truediv (corner_transparent st) (corner_total st);
          mret (Some (q * 100)%Q)
     else mret None)
    = Ok (percentage_of (corner_transparent st) (corner_total st))).
  { unfold percentage_of, py_truediv.
    destruct (0 <? corner_total st) eqn:Hpos; [|reflexivity].
    apply Z.ltb_lt in Hpos.
    destruct (corner_total st =? 0) eqn:Hz; [apply Z.eqb_eq in Hz; lia|].
    reflexivity. }
  rewrite Hpct, bind_Ok.
  eexists. split; [reflexivity|]. simpl. split; [|split].
  - eapply masked_by_ext; [|exact Hm].
    intros x y _. simpl. unfold box_cells.
    rewrite <- (candidate_visited w h reg x y). unfold box_cells.
    rewrite Hbox. reflexivity.
  - lia.
  - unfold report_of. fold w h. rewrite Hc, Ht'. simpl.
    replace (0 + cleared_count tol (pass_img ps) reg)
      with (cleared_count tol (pass_img ps) reg) by lia.
    reflexivity.
Qed.

(** ** All regions *)

Lemma regions_spec (tol : Z) (regs : list region) (ps : pass_state) :
  well_formed (pass_img ps) ->
  exists ps',
    for_each regs
      (process_region (width (pass_img ps)) (height (pass_img ps)) tol) ps
    = Ok ps' /\
    masked_by tol
      (covered (width (pass_img ps)) (height (pass_img ps)) regs)
      (pass_img ps) (pass_img ps') /\
    pass_transparent ps'
    = pass_transparent ps + total_cleared tol (pass_img ps) regs /\
    pass_reports ps'
    = pass_reports ps ++ (report_of tol (pass_img ps) <$> regs).
Proof.
  revert ps. induction regs as [|reg regs IH]; intros ps Hwf.
  - exists ps. simpl. split; [reflexivity|].
    split; [apply masked_by_refl, Hwf|]. split; [lia|].
    rewrite app_nil_r. reflexivity.
  - destruct (process_region_spec tol reg ps Hwf) as (ps1 & Hp & Hm1 & Hn1 & Hr1).
    assert (Hwf1 : well_formed (pass_img ps1)) by apply Hm1.
    destruct (IH ps1 Hwf1) as (ps2 & Hf & Hm2 & Hn2 & Hr2).
    assert (Hw : width (pass_img ps1) = width (pass_img ps)) by apply Hm1.
    assert (Hh : height (pass_img ps1) = height (pass_img ps)) by apply Hm1.
    rewrite Hw, Hh in Hf, Hm2.
    exists ps2. simpl. rewrite Hp. split; [exact Hf|]. split; [|split].
    + exact (masked_by_trans _ _ _ _ _ _ Hm1 Hm2).
    + rewrite Hn2, Hn1. unfold total_cleared at 1.
      assert (Heq : foldr (fun reg acc => cleared_count tol (pass_img ps1) reg + acc) 0 regs
                    = total_cleared tol (pass_img ps) regs).
      { unfold total_cleared. clear -Hwf Hm1.
        induction regs as [|r regs IHr]; simpl; [reflexivity|].
        rewrite IHr, (cleared_count_masked _ _ _ _ _ Hwf Hm1). reflexivity. }
      rewrite Heq. lia.
    + rewrite Hr2, Hr1, <- app_assoc. simpl. do 2 f_equal.
      apply list_fmap_ext. intros _ r _.
      apply (report_of_masked _ _ _ _ _ Hwf Hm1).
Qed.

(** ** The whole pass *)

Theorem apply_mask_sized_spec (img : image) (corner_size tol : Z) :
  well_formed img ->
  exists ps,
    apply_mask_sized img corner_size tol = Ok ps /\
    masked_by tol
      (covered (width img) (height img) (regions_of img corner_size))
      img (pass_img ps) /\
    pass_transparent ps = total_cleared tol img (regions_of img corner_size) /\
    pass_reports ps = report_of tol img <$> regions_of img corner_size.
Proof.
  intros Hwf.
  destruct (regions_spec tol (regions_of img corner_size) (PassState img 0 []))
    as (ps & Hrun & Hm & Hn & Hr); [exact Hwf|].
  exists ps. simpl in *. repeat split; try apply Hm; assumption.
Qed.

Lemma masked_by_same_hit (tol : Z) (hit : Z -> Z -> bool) (a b c : image) :
  well_formed a -> masked_by tol hit a b -> masked_by tol hit b c -> b = c.
Proof.
  intros Hwf Hab Hbc.
  pose proof (masked_by_trans _ _ _ _ _ _ Hab Hbc) as Hac.
  destruct Hab as (Hw1 & Hh1 & Hwfb & Hab).
  destruct Hac as (Hw2 & Hh2 & Hwfc & Hac).
  apply image_ext; try assumption; try congruence.
  intros x y Hin.
  assert (in_bounds a x y = true) as Hina
    by (unfold in_bounds in *; rewrite <- Hw1, <- Hh1; exact Hin).
  destruct (getpixel_total a x y Hwf Hina) as [p Hp].
  rewrite (Hab _ _ _ Hp), (Hac _ _ _ Hp), orb_diag. reflexivity.
Qed.


(** ** Pixel classifier *)

(** C4: on 8-bit channels and tolerances the classifier answers background
    exactly when each of r, g, b is at least [255 - tolerance]; alpha never
    enters; tolerance 0 accepts only (255,255,255) and tolerance 255
    accepts every pixel. *)
Theorem classifier_rule (r g b a a' tol : Z) :
  0 <= r <= 255 -> 0 <= g <= 255 -> 0 <= b <= 255 -> 0 <= tol <= 255 ->
  (is_background tol (RGBA r g b a) = true
   <-> 255 - tol <= r /\ 255 - tol <= g /\ 255 - tol <= b) /\
  is_background tol (RGBA r g b a) = is_background tol (RGBA r g b a') /\
  (is_background 0 (RGBA r g b a) = true <-> r = 255 /\ g = 255 /\ b = 255) /\
  is_background 255 (RGBA r g b a) = true.
Proof.
  intros Hr Hg Hb Ht. unfold is_background. simpl.
  rewrite !andb_true_iff, !Z.leb_le. repeat split; try lia.
Qed.

Lemma classifier_rule_witness :
  (is_background 50 (RGBA 210 230 255 7) = true
   <-> 255 - 50 <= 210 /\ 255 - 50 <= 230 /\ 255 - 50 <= 255) /\
  is_background 50 (RGBA 210 230 255 7) = is_background 50 (RGBA 210 230 255 0) /\
  (is_background 0 (RGBA 210 230 255 7) = true
   <-> 210 = 255 /\ 230 = 255 /\ 255 = 255) /\
  is_background 255 (RGBA 210 230 255 7) = true.
Proof. apply (classifier_rule 210 230 255 7 0 50); lia. Defined.

(** ** The distance test on doubles *)

(** On small offsets and radii the test on doubles is the test on the
    squared integers. *)
Example within_radius_double_small :
  forallb
    (fun r =>
       forallb
         (fun dx =>
            forallb
              (fun dy =>
                 match within_radius_double dx dy r with
                 | Ok b => Bool.eqb b (within_radius dx dy r)
                 | Raise _ => false
                 end)
              (seqZ (-40) 81))
         (seqZ (-40) 81))
    (seqZ (-2) 43)
  = true.
Proof. vm_compute. reflexivity. Qed.

(** At radius [2 ^ 26] the two part: the root of [2 ^ 52 + 1] rounds down
    to [2 ^ 26], so the point at distance [sqrt (2 ^ 52 + 1)] passes the
    test on doubles.  One below that radius they still agree.  Offsets
    whose squares leave the double range raise. *)
Example within_radius_double_limit :
  within_radius_double (2 ^ 26) 1 (2 ^ 26) = Ok true /\
  within_radius (2 ^ 26) 1 (2 ^ 26) = false /\
  within_radius_double (2 ^ 26 - 1) 1 (2 ^ 26 - 1) = Ok false /\
  within_radius (2 ^ 26 - 1) 1 (2 ^ 26 - 1) = false /\
  within_radius_double (10 ^ 160) 0 1 = Raise OverflowError.
Proof. repeat split; vm_compute; reflexivity. Qed.

(** ** Corner region calculator *)

Lemma py_int_nonneg_floor (q : Q) : (0 <= q)%Q -> py_int q = Qfloor q.
Proof.
  destruct q as [n d]. unfold Qle, py_int, Qfloor. simpl. intros Hn.
  apply Z.quot_div_nonneg; lia.
Qed.

Lemma py_int_half_floor (p : Q) :
  (0 <= p)%Q -> py_int p / 2 = Qfloor (p / 2).
Proof.
  intros Hp. destruct p as [n d]. unfold Qle in Hp. simpl in Hp.
  unfold py_int, Qfloor, Qdiv, Qmult, Qinv. simpl.
  rewrite Z.quot_div_nonneg by lia.
  rewrite Z.div_div by lia.
  f_equal; lia.
Qed.

(** C5 fails as stated: the radius is half the truncated double product of
    line 34, which is not always [floor(W * corner_ratio / 2)].  For
    [corner_ratio = 0.29] on a width of 200 the product is
    57.99999999999999 and the radius 28, where the formula on 0.29 gives
    29.  For [corner_ratio = 0.3] on a width of 20 the product rounds up to
    6.0 and the radius is 3, where the formula on the value the double 0.3
    stands for gives 2. *)
Lemma radius_is_not_floor_of_exact_product :
  ((0 <? double_0_29)%float = true /\ (double_0_29 <=? 0.5)%float = true /\
   corner_size_double 200 double_0_29 = Ok 57 /\
   corner_regions 200 200 57
   = [ Region 28 28 28 TopLeft; Region 172 28 28 TopRight;
       Region 28 172 28 BottomLeft; Region 172 172 28 BottomRight ] /\
   Qfloor (inject_Z 200 * (29 # 100) / 2) = 29) /\
  ((0 <? double_0_3)%float = true /\ (double_0_3 <=? 0.5)%float = true /\
   corner_size_double 20 double_0_3 = Ok 6 /\
   corner_regions 20 20 6
   = [ Region 3 3 3 TopLeft; Region 17 3 3 TopRight;
       Region 3 17 3 BottomLeft; Region 17 17 3 BottomRight ] /\
   float_value double_0_3 = Some (5404319552844595 # 18014398509481984) /\
   Qfloor (inject_Z 20 * (5404319552844595 # 18014398509481984) / 2) = 2).
Proof. repeat split; vm_compute; reflexivity. Qed.

(** C5 as amended: when the double product [p] of line 34 is finite and
    not negative, the calculator yields exactly the four regions top-left,
    top-right, bottom-left, bottom-right, all of radius [floor(p / 2)],
    each centre inset by the radius from its corner along both axes. *)
Theorem corner_regions_geometry (w h : Z) (ratio fw : float) (p : Q) :
  float_of_int w = Ok fw ->
  float_value (fw * ratio)%float = Some p ->
  (0 <= p)%Q ->
  exists corner_size,
    corner_size_double w ratio = Ok corner_size /\
    corner_regions w h corner_size
    = (let r := Qfloor (p / 2) in
       [ Region r r r TopLeft;
         Region (w - r) r r TopRight;
         Region r (h - r) r BottomLeft;
         Region (w - r) (h - r) r BottomRight ]).
Proof.
  intros Hw Hp Hpos. exists (py_int p). split.
  - unfold corner_size_double, int_of_float. rewrite Hw, Hp. reflexivity.
  - unfold corner_regions. rewrite (py_int_half_floor p Hpos). reflexivity.
Qed.

Lemma corner_regions_geometry_witness :
  exists corner_size,
    corner_size_double 200 double_0_29 = Ok corner_size /\
    corner_regions 200 150 corner_size
    = (let r := Qfloor ((8162774324609023 # 140737488355328) / 2) in
       [ Region r r r TopLeft;
         Region (200 - r) r r TopRight;
         Region r (150 - r) r BottomLeft;
         Region (200 - r) (150 - r) r BottomRight ]).
Proof.
  apply (corner_regions_geometry 200 150 double_0_29 200%float
           (8162774324609023 # 140737488355328));
    [reflexivity | reflexivity | discriminate].
Defined.

(** The default ratio 0.25 on a width of 400: the product is exactly 100,
    the radius 50. *)
Example corner_regions_default :
  corner_size_double 400 0.25%float = Ok 100 /\
  corner_regions 400 300 100
  = [ Region 50 50 50 TopLeft; Region 350 50 50 TopRight;
      Region 50 250 50 BottomLeft; Region 350 250 50 BottomRight ].
Proof. split; reflexivity. Qed.

(** ** The handler of [make_icon_transparent] *)

Lemma io_bind_unfold {A B : Type} (m : io A) (f : A -> io B) (w : world) :
  (m ≫= f) w
  = match m w with
    | (w', Normal a) => f a w'
    | (w', Thrown r) => (w', Thrown r)
    end.
Proof. reflexivity. Qed.

Lemma catchable_bind {A B : Type} (m : io A) (f : A -> io B) :
  catchable m -> (forall a, catchable (f a)) -> catchable (m ≫= f).
Proof.
  intros Hm Hf w w' r. rewrite io_bind_unfold.
  destruct (m w) as [w1 [a|r1]] eqn:Hrun.
  - apply Hf.
  - intros [= <- <-]. eapply Hm, Hrun.
Qed.

Lemma catchable_ret {A : Type} (a : A) : catchable (io_ret A a).
Proof. intros w w' r. unfold io_ret. discriminate. Qed.

Lemma catchable_skip : catchable skip.
Proof. apply catchable_ret. Qed.

Lemma catchable_lift {A : Type} (m : result A) : catchable (lift m).
Proof.
  intros w w' r. unfold lift. destruct m as [a|e]; [discriminate|].
  intros [= <- <-]. eauto.
Qed.

Lemma catchable_print (rt : runtime) (m : message) :
  raises_only_exceptions rt -> catchable (print rt m).
Proof.
  intros (_ & _ & Hc) w w' r. unfold print.
  destruct (console rt (printed w) m) as [u|r1] eqn:Hrun; [discriminate|].
  intros [= <- <-]. eapply Hc, Hrun.
Qed.

Lemma catchable_open (rt : runtime) (path : string) :
  raises_only_exceptions rt -> catchable (open rt path).
Proof.
  intros (Ho & _ & _) w w' r. unfold open. intros [= <- H]. eapply Ho, H.
Qed.

Lemma catchable_save (rt : runtime) (path : string) (img : image) :
  raises_only_exceptions rt -> catchable (save rt path img).
Proof.
  intros (_ & Hs & _) w w' r. unfold save.
  destruct (image_save rt path img) as [u|r1] eqn:Hrun; [discriminate|].
  intros [= <- <-]. eapply Hs, Hrun.
Qed.

Lemma catchable_for_each_io {A S : Type} (xs : list A)
    (body : A -> S -> io S) :
  (forall x s, catchable (body x s)) ->
  forall s, catchable (for_each_io xs body s).
Proof.
  intros Hbody. induction xs as [|x xs IH]; intros s; simpl.
  - apply catchable_ret.
  - apply catchable_bind; [apply Hbody | exact IH].
Qed.

Lemma catchable_process_region_io (rt : runtime) (w h tol : Z)
    (reg : region) (ps : pass_state) :
  raises_only_exceptions rt ->
  catchable (process_region_io rt w h tol reg ps).
Proof.
  intros Hrt. unfold process_region_io.
  apply catchable_bind; [apply catchable_print, Hrt|]. intros _.
  apply catchable_bind; [apply catchable_lift|]. intros ps'.
  apply catchable_bind; [|intros _; apply catchable_ret].
  destruct (last (pass_reports ps')) as [stats|]; [|apply catchable_skip].
  destruct (0 <? region_total stats);
    [apply catchable_print, Hrt | apply catchable_skip].
Qed.

(** On a run time that raises only [Exception]s the [try] block raises
    only [Exception]s. *)
Lemma catchable_try (rt : runtime) (input_path output_path : string)
    (ratio : float) (tol : Z) :
  raises_only_exceptions rt ->
  catchable (make_icon_transparent_try rt input_path output_path ratio tol).
Proof.
  intros Hrt. unfold make_icon_transparent_try.
  apply catchable_bind; [apply catchable_open, Hrt|]. intros [img converted].
  apply catchable_bind.
  { destruct converted; [apply catchable_print, Hrt | apply catchable_skip]. }
  intros _. apply catchable_bind; [apply catchable_lift|]. intros corner_size.
  do 2 (apply catchable_bind; [apply catchable_print, Hrt|]; intros _).
  apply catchable_bind.
  { apply catchable_for_each_io. intros reg ps.
    apply catchable_process_region_io, Hrt. }
  intros ps. apply catchable_bind; [apply catchable_lift|]. intros stats.
  do 6 (apply catchable_bind; [apply catchable_print, Hrt|]; intros _).
  apply catchable_bind; [apply catchable_save, Hrt|]. intros _.
  apply catchable_print, Hrt.
Qed.

(** C10 fails as stated.  On a console that takes only ASCII an unreadable
    input raises in the [try] block, the handler's own [print] of line 109
    raises [UnicodeEncodeError], and that exception reaches the caller; so
    does a [KeyboardInterrupt] raised while the file is read, which
    [except Exception] does not catch. *)
Lemma exception_can_escape :
  make_icon_transparent_run
    (Runtime (fun _ => Thrown (Exc IOError)) (fun _ _ => Normal ())
       ascii_console)
    "missing.png" "out.png" 0.25%float 50
  = (World [] None, Some (Exc UnicodeEncodeError)) /\
  make_icon_transparent_run
    (Runtime (fun _ => Thrown KeyboardInterrupt) (fun _ _ => Normal ())
       utf8_console)
    "ic_launcher.png" "out.png" 0.25%float 50
  = (World [] None, Some KeyboardInterrupt).
Proof. split; reflexivity. Qed.

(** C10 as amended: when the run time raises only exceptions below
    [Exception] and the error message of line 109 can be printed, the call
    returns to its caller; if the [try] block raised, the error message is
    the last thing printed. *)
Theorem make_icon_transparent_returns_when_handler_prints (rt : runtime)
    (input_path output_path : string) (ratio : float) (tol : Z) :
  raises_only_exceptions rt ->
  (forall out e, console rt out (MsgError e) = Normal ()) ->
  exists w,
    make_icon_transparent_run rt input_path output_path ratio tol
    = (w, None) /\
    match make_icon_transparent_try rt input_path output_path ratio tol
            (World [] None) with
    | (w0, Normal _) => w = w0
    | (w0, Thrown (Exc e)) =>
        w = World (printed w0 ++ [MsgError e]) (saved w0)
    | (w0, Thrown _) => False
    end.
Proof.
  intros Hrt Hprint. unfold make_icon_transparent_run.
  pose proof (catchable_try rt input_path output_path ratio tol Hrt
                (World [] None)) as Hcatch.
  destruct (make_icon_transparent_try rt input_path output_path ratio tol
              (World [] None)) as [w0 [u|r]].
  - exists w0. split; reflexivity.
  - destruct (Hcatch w0 r eq_refl) as [e ->].
    unfold print. rewrite Hprint. eexists. split; reflexivity.
Qed.

Lemma make_icon_transparent_returns_when_handler_prints_witness :
  exists w,
    make_icon_transparent_run
      (Runtime (fun _ => Thrown (Exc IOError)) (fun _ _ => Normal ())
         utf8_console)
      "missing.png" "out.png" 0.25%float 50
    = (w, None) /\
    match make_icon_transparent_try
            (Runtime (fun _ => Thrown (Exc IOError)) (fun _ _ => Normal ())
               utf8_console)
            "missing.png" "out.png" 0.25%float 50 (World [] None) with
    | (w0, Normal _) => w = w0
    | (w0, Thrown (Exc e)) =>
        w = World (printed w0 ++ [MsgError e]) (saved w0)
    | (w0, Thrown _) => False
    end.
Proof.
  apply (make_icon_transparent_returns_when_handler_prints
           (Runtime (fun _ => Thrown (Exc IOError)) (fun _ _ => Normal ())
              utf8_console)
           "missing.png" "out.png" 0.25%float 50).
  - split; [intros path r [= <-]; eauto|].
    split; [intros path img r H | intros out m r H]; discriminate H.
  - reflexivity.
Defined.

(** On a console that takes only ASCII the call propagates
    [UnicodeEncodeError] even when the input is a readable image: the first
    [print] of the [try] block raises and so does the handler's. *)
Example ascii_console_always_escapes :
  make_icon_transparent_run
    (Runtime (fun _ => Normal (blank 16 16 white, false))
       (fun _ _ => Normal ()) ascii_console)
    "ic_launcher.png" "out.png" 0.25%float 50
  = (World [] None, Some (Exc UnicodeEncodeError)).
Proof. reflexivity. Qed.

(** An unreadable input and an empty image both end in the handler. *)
Example unreadable_file_is_caught :
  make_icon_transparent
    (FileSystem (fun _ => Raise IOError) (fun _ _ => Ok ()))
    "ic_launcher.png" "ic_launcher_transparent.png" (1 # 4) 50
  = Returned (Raise IOError) None.
Proof. reflexivity. Qed.

Example empty_image_is_caught :
  make_icon_transparent
    (FileSystem (fun _ => Ok (blank 0 0 white)) (fun _ _ => Ok ()))
    "ic_launcher.png" "ic_launcher_transparent.png" (1 # 4) 50
  = Returned (Raise ZeroDivisionError) None.
Proof. reflexivity. Qed.

(** ** Frame, idempotence, monotonicity *)

Lemma in_circle_false_iff (reg : region) (x y : Z) :
  in_circle reg x y = false <->
  radius reg < 0 \/
  radius reg * radius reg
  < (x - center_x reg) * (x - center_x reg)
    + (y - center_y reg) * (y - center_y reg).
Proof.
  unfold in_circle, within_radius.
  rewrite andb_false_iff, Z.leb_gt, Z.leb_gt. reflexivity.
Qed.

Lemma covered_false (w h : Z) (regs : list region) (x y : Z) :
  (forall reg, reg ∈ regs -> in_circle reg x y = false) ->
  covered w h regs x y = false.
Proof.
  intros Hout. unfold covered. apply not_true_is_false.
  rewrite existsb_exists. intros (reg & Hin & Hc).
  apply list_elem_of_In in Hin. specialize (Hout reg Hin).
  unfold candidate in Hc.
  destruct (bounding_box w h reg) as [[[x1 y1] x2] y2].
  rewrite Hout, andb_false_r in Hc. discriminate.
Qed.

Lemma apply_mask_spec (img : image) (ratio : Q) (tol : Z) :
  well_formed img ->
  exists ps,
    apply_mask img ratio tol = Ok ps /\
    masked_by tol
      (covered (width img) (height img)
         (regions_of img (corner_size_of (width img) ratio)))
      img (pass_img ps) /\
    pass_transparent ps
    = total_cleared tol img (regions_of img (corner_size_of (width img) ratio)) /\
    pass_reports ps
    = report_of tol img <$> regions_of img (corner_size_of (width img) ratio).
Proof. intros Hwf. apply apply_mask_sized_spec, Hwf. Qed.

(** C3: the pass returns, and of every pixel it leaves either the pixel
    itself or the same colour with alpha 0; a pixel strictly outside the
    four circles is left as it was.  This holds for every ratio and
    tolerance. *)
Theorem pass_frame (img : image) (ratio : Q) (tol : Z) :
  well_formed img ->
  exists ps,
    apply_mask img ratio tol = Ok ps /\
    forall x y p,
      getpixel img x y = Ok p ->
      (getpixel (pass_img ps) x y = Ok p \/
       getpixel (pass_img ps) x y = Ok (RGBA (red p) (green p) (blue p) 0)) /\
      ((forall reg,
          reg ∈ corner_regions (width img) (height img)
                  (corner_size_of (width img) ratio) ->
          in_circle reg x y = false) ->
       getpixel (pass_img ps) x y = Ok p).
Proof.
  intros Hwf.
  destruct (apply_mask_spec img ratio tol Hwf) as (ps & Hrun & Hm & _).
  exists ps. split; [exact Hrun|]. intros x y p Hp.
  destruct Hm as (_ & _ & _ & Hpix). specialize (Hpix x y p Hp).
  split.
  - rewrite Hpix. unfold mask_pixel.
    destruct (_ && _); [right | left]; reflexivity.
  - intros Hout. rewrite Hpix.
    unfold regions_of. rewrite (covered_false _ _ _ _ _ Hout). reflexivity.
Qed.

Lemma blank_well_formed (w h : Z) (p : pixel) :
  0 <= w -> 0 <= h -> well_formed (blank w h p).
Proof.
  intros Hw Hh. unfold well_formed, blank. simpl.
  rewrite length_replicate, Z2Nat.id by nia. lia.
Qed.

Lemma pass_frame_witness :
  exists ps,
    apply_mask (blank 16 16 white) (1 # 4) 50 = Ok ps /\
    forall x y p,
      getpixel (blank 16 16 white) x y = Ok p ->
      (getpixel (pass_img ps) x y = Ok p \/
       getpixel (pass_img ps) x y = Ok (RGBA (red p) (green p) (blue p) 0)) /\
      ((forall reg,
          reg ∈ corner_regions (width (blank 16 16 white))
                  (height (blank 16 16 white))
                  (corner_size_of (width (blank 16 16 white)) (1 # 4)) ->
          in_circle reg x y = false) ->
       getpixel (pass_img ps) x y = Ok p).
Proof. apply (pass_frame (blank 16 16 white) (1 # 4) 50), blank_well_formed; lia. Defined.

(** C6: running the pass on its own result, with the same ratio and
    tolerance, returns that result again. *)
Theorem apply_mask_idempotent (img : image) (ratio : Q) (tol : Z) :
  well_formed img ->
  exists ps1 ps2,
    apply_mask img ratio tol = Ok ps1 /\
    apply_mask (pass_img ps1) ratio tol = Ok ps2 /\
    pass_img ps2 = pass_img ps1.
Proof.
  intros Hwf.
  destruct (apply_mask_spec img ratio tol Hwf) as (ps1 & Hrun1 & Hm1 & _).
  assert (Hwf1 : well_formed (pass_img ps1)) by apply Hm1.
  destruct (apply_mask_spec (pass_img ps1) ratio tol Hwf1)
    as (ps2 & Hrun2 & Hm2 & _).
  exists ps1, ps2. split; [exact Hrun1|]. split; [exact Hrun2|].
  unfold regions_of in Hm1, Hm2.
  assert (Hw : width (pass_img ps1) = width img) by apply Hm1.
  assert (Hh : height (pass_img ps1) = height img) by apply Hm1.
  rewrite Hw, Hh in Hm2. symmetry.
  exact (masked_by_same_hit _ _ _ _ _ Hwf Hm1 Hm2).
Qed.

Lemma apply_mask_idempotent_witness :
  exists ps1 ps2,
    apply_mask (blank 16 16 white) (1 # 4) 50 = Ok ps1 /\
    apply_mask (pass_img ps1) (1 # 4) 50 = Ok ps2 /\
    pass_img ps2 = pass_img ps1.
Proof.
  apply (apply_mask_idempotent (blank 16 16 white) (1 # 4) 50),
    blank_well_formed; lia.
Defined.

Lemma is_background_mono (t1 t2 : Z) (p : pixel) :
  t1 <= t2 -> is_background t1 p = true -> is_background t2 p = true.
Proof.
  unfold is_background. rewrite !andb_true_iff, !Z.leb_le. lia.
Qed.

Lemma count_if_mono {A : Type} (f g : A -> bool) (l : list A) :
  (forall a, f a = true -> g a = true) -> count_if f l <= count_if g l.
Proof.
  intros Hfg. induction l as [|a l IH]; simpl; [lia|].
  specialize (Hfg a). destruct (f a), (g a); lia.
Qed.

Lemma background_at_mono (t1 t2 : Z) (img : image) (x y : Z) :
  t1 <= t2 -> background_at t1 img x y = true ->
  background_at t2 img x y = true.
Proof.
  intros Ht Hb. unfold background_at in *.
  destruct (getpixel img x y) as [p|e]; [|discriminate].
  exact (is_background_mono t1 t2 p Ht Hb).
Qed.

Lemma total_cleared_mono (t1 t2 : Z) (img : image) (regs : list region) :
  t1 <= t2 -> total_cleared t1 img regs <= total_cleared t2 img regs.
Proof.
  intros Ht. induction regs as [|reg regs IH]; simpl; [lia|].
  assert (cleared_count t1 img reg <= cleared_count t2 img reg); [|lia].
  apply count_if_mono. intros [y x]. simpl.
  rewrite !andb_true_iff. intros [Hc Hb]. split; [exact Hc|].
  exact (background_at_mono t1 t2 img x y Ht Hb).
Qed.

(** [written] is exactly where the result differs from the input. *)
Lemma apply_mask_pixels (img : image) (ratio : Q) (tol : Z) :
  well_formed img ->
  exists ps,
    apply_mask img ratio tol = Ok ps /\
    forall x y p,
      getpixel img x y = Ok p ->
      getpixel (pass_img ps) x y
      = Ok (if written tol img ratio x y then transparent_of p else p).
Proof.
  intros Hwf.
  destruct (apply_mask_spec img ratio tol Hwf) as (ps & Hrun & Hm & _).
  exists ps. split; [exact Hrun|]. intros x y p Hp.
  destruct Hm as (_ & _ & _ & Hpix). rewrite (Hpix x y p Hp).
  unfold written, background_at, mask_pixel. rewrite Hp. reflexivity.
Qed.

(** C7: with the same image and ratio and tolerances [t1 < t2], every pixel
    written transparent under [t1] is written transparent under [t2]; so
    is every pixel that went from visible to transparent, every pixel with
    alpha 0 after the pass under [t1] has alpha 0 after the pass under
    [t2], and the count of cleared pixels does not shrink. *)
Theorem tolerance_monotone (img : image) (ratio : Q) (t1 t2 : Z) :
  well_formed img -> t1 < t2 ->
  exists ps1 ps2,
    apply_mask img ratio t1 = Ok ps1 /\
    apply_mask img ratio t2 = Ok ps2 /\
    pass_transparent ps1 <= pass_transparent ps2 /\
    forall x y,
      (written t1 img ratio x y = true -> written t2 img ratio x y = true) /\
      (made_transparent img (pass_img ps1) x y ->
       made_transparent img (pass_img ps2) x y) /\
      (forall q1,
         getpixel (pass_img ps1) x y = Ok q1 -> alpha q1 = 0 ->
         exists q2, getpixel (pass_img ps2) x y = Ok q2 /\ alpha q2 = 0).
Proof.
  intros Hwf Hlt.
  destruct (apply_mask_spec img ratio t1 Hwf) as (ps1 & Hrun1 & Hm1 & Hn1 & _).
  destruct (apply_mask_spec img ratio t2 Hwf) as (ps2 & Hrun2 & Hm2 & Hn2 & _).
  exists ps1, ps2. split; [exact Hrun1|]. split; [exact Hrun2|].
  split; [rewrite Hn1, Hn2; apply total_cleared_mono; lia|].
  set (regs := regions_of img (corner_size_of (width img) ratio)) in *.
  assert (Hstep : forall x y p,
            getpixel img x y = Ok p ->
            mask_pixel t1 (covered (width img) (height img) regs x y) p
            = transparent_of p ->
            alpha p <> 0 ->
            mask_pixel t2 (covered (width img) (height img) regs x y) p
            = transparent_of p).
  { intros x y p _ H1 Ha. unfold mask_pixel in *.
    destruct (covered (width img) (height img) regs x y); simpl in *.
    - destruct (is_background t1 p) eqn:Hb.
      + rewrite (is_background_mono t1 t2 p) by (lia || exact Hb). reflexivity.
      + destruct p; unfold transparent_of in H1; simpl in *. congruence.
    - destruct p; unfold transparent_of in H1; simpl in *. congruence. }
  intros x y. split; [|split].
  - unfold written. fold regs. rewrite !andb_true_iff. intros [Hc Hb].
    split; [exact Hc|]. apply (background_at_mono t1 t2); [lia | exact Hb].
  - intros (p & Hp & Ha & Hafter). exists p. split; [exact Hp|].
    split; [exact Ha|].
    destruct Hm1 as (_ & _ & _ & Hpix1). destruct Hm2 as (_ & _ & _ & Hpix2).
    rewrite (Hpix1 _ _ _ Hp) in Hafter. rewrite (Hpix2 _ _ _ Hp).
    f_equal. apply (Hstep x y p Hp); [congruence | exact Ha].
  - intros q1 Hq1 Hz.
    assert (Hin : in_bounds img x y = true).
    { rewrite <- (masked_by_in_bounds _ _ _ _ x y Hm1).
      eapply getpixel_in_bounds, Hq1. }
    destruct (getpixel_total img x y Hwf Hin) as [p Hp].
    destruct Hm1 as (_ & _ & _ & Hpix1). destruct Hm2 as (_ & _ & _ & Hpix2).
    rewrite (Hpix1 _ _ _ Hp) in Hq1. rewrite (Hpix2 _ _ _ Hp).
    eexists. split; [reflexivity|].
    assert (q1 = mask_pixel t1 (covered (width img) (height img) regs x y) p)
      as -> by congruence.
    destruct (decide (alpha p = 0)) as [Ha|Ha].
    + unfold mask_pixel. destruct (_ && _); [reflexivity | exact Ha].
    + rewrite (Hstep x y p Hp); [reflexivity | | exact Ha].
      unfold mask_pixel in *. destruct (_ && _); [reflexivity | contradiction].
Qed.

Lemma tolerance_monotone_witness :
  exists ps1 ps2,
    apply_mask (blank 16 16 (RGBA 230 230 230 255)) (1 # 4) 10 = Ok ps1 /\
    apply_mask (blank 16 16 (RGBA 230 230 230 255)) (1 # 4) 50 = Ok ps2 /\
    pass_transparent ps1 <= pass_transparent ps2 /\
    forall x y,
      (written 10 (blank 16 16 (RGBA 230 230 230 255)) (1 # 4) x y = true ->
       written 50 (blank 16 16 (RGBA 230 230 230 255)) (1 # 4) x y = true) /\
      (made_transparent (blank 16 16 (RGBA 230 230 230 255)) (pass_img ps1) x y ->
       made_transparent (blank 16 16 (RGBA 230 230 230 255)) (pass_img ps2) x y) /\
      (forall q1,
         getpixel (pass_img ps1) x y = Ok q1 -> alpha q1 = 0 ->
         exists q2, getpixel (pass_img ps2) x y = Ok q2 /\ alpha q2 = 0).
Proof.
  apply (tolerance_monotone (blank 16 16 (RGBA 230 230 230 255)) (1 # 4) 10 50);
    [apply blank_well_formed; lia | lia].
Defined.

(** ** No validation of the configuration *)


Lemma apply_mask_double_sized (img : image) (ratio : float)
    (corner_size tol : Z) :
  corner_size_double (width img) ratio = Ok corner_size ->
  apply_mask_double img ratio tol = apply_mask_sized img corner_size tol.
Proof. intros H. unfold apply_mask_double. rewrite H. reflexivity. Qed.




(** ** Boundary pixels *)

Lemma candidate_in_box (w h : Z) (reg : region) (x y : Z) :
  candidate w h reg x y = in_box w h reg x y && in_circle reg x y.
Proof.
  unfold candidate, in_box.
  destruct (bounding_box w h reg) as [[[x1 y1] x2] y2]. reflexivity.
Qed.

Lemma square_le_bound (a r : Z) : 0 <= r -> a * a <= r * r -> - r <= a <= r.
Proof.
  intros Hr Ha. split.
  - assert (- a <= r); [|lia].
    apply Z.square_le_simpl_nonneg; [exact Hr|]. lia.
  - apply Z.square_le_simpl_nonneg; [exact Hr|]. lia.
Qed.

(** A pixel of the image at distance exactly [radius] from the centre is a
    candidate as soon as it lies left of [cx + radius] and above
    [cy + radius]. *)
Lemma boundary_pixel_inside_box (w h : Z) (reg : region) (x y : Z) :
  0 <= radius reg ->
  0 <= x < w -> 0 <= y < h ->
  (x - center_x reg) * (x - center_x reg)
  + (y - center_y reg) * (y - center_y reg) = radius reg * radius reg ->
  x < center_x reg + radius reg -> y < center_y reg + radius reg ->
  candidate w h reg x y = true.
Proof.
  intros Hr Hx Hy Hd Hxr Hyr.
  unfold candidate, bounding_box, in_circle, within_radius.
  rewrite !andb_true_iff, !Z.leb_le, !Z.ltb_lt.
  assert (0 <= (x - center_x reg) * (x - center_x reg))
    by apply Z.square_nonneg.
  assert (0 <= (y - center_y reg) * (y - center_y reg))
    by apply Z.square_nonneg.
  pose proof (square_le_bound (x - center_x reg) (radius reg) Hr ltac:(lia)).
  pose proof (square_le_bound (y - center_y reg) (radius reg) Hr ltac:(lia)).
  repeat split; lia.
Qed.

(** C2 at a failing input: in a white 16x16 image with ratio 0.25 the
    top-left region has centre (2,2) and radius 2.  The pixels (4,2) and
    (2,4) are at distance exactly 2 and background, but the loops stop at
    [cx + radius] and [cy + radius] and leave them opaque, while the
    opposite boundary pixels (0,2) and (2,0) are cleared. *)
Lemma boundary_pixel_right_and_below_skipped :
  Region 2 2 2 TopLeft ∈ corner_regions 16 16 (corner_size_of 16 (1 # 4)) /\
  (4 - 2) * (4 - 2) + (2 - 2) * (2 - 2) = 2 * 2 /\
  getpixel (blank 16 16 white) 4 2 = Ok white /\
  is_background 50 white = true /\
  candidate 16 16 (Region 2 2 2 TopLeft) 4 2 = false /\
  candidate 16 16 (Region 2 2 2 TopLeft) 2 4 = false /\
  covered 16 16 (corner_regions 16 16 (corner_size_of 16 (1 # 4))) 4 2 = false /\
  exists ps,
    apply_mask (blank 16 16 white) (1 # 4) 50 = Ok ps /\
    getpixel (pass_img ps) 4 2 = Ok white /\
    getpixel (pass_img ps) 2 4 = Ok white /\
    getpixel (pass_img ps) 0 2 = Ok (RGBA 255 255 255 0) /\
    getpixel (pass_img ps) 2 0 = Ok (RGBA 255 255 255 0).
Proof.
  split; [left|]. repeat (split; [reflexivity|]).
  eexists. split; [vm_compute; reflexivity|].
  repeat split; reflexivity.
Qed.

(** ** Statistics *)







(** ** Bounding boxes *)

Lemma in_box_spec (w h : Z) (reg : region) (x y : Z) :
  in_box w h reg x y = true <->
  Z.max 0 (center_x reg - radius reg) <= x
    < Z.min w (center_x reg + radius reg) /\
  Z.max 0 (center_y reg - radius reg) <= y
    < Z.min h (center_y reg + radius reg).
Proof.
  unfold in_box, bounding_box.
  rewrite !andb_true_iff, !Z.leb_le, !Z.ltb_lt. lia.
Qed.

Lemma corner_size_half_width (w : Z) (ratio : Q) :
  0 <= w -> (0 <= ratio)%Q -> (ratio <= 1 # 2)%Q ->
  0 <= corner_size_of w ratio /\ 2 * corner_size_of w ratio <= w.
Proof.
  intros Hw Hlo Hhi. destruct ratio as [n d].
  unfold Qle in Hlo, Hhi. simpl in Hlo, Hhi.
  unfold corner_size_of, py_int. simpl. rewrite Pos.mul_1_l.
  rewrite Z.quot_div_nonneg by nia.
  assert (Hd : 0 < Z.pos d) by lia.
  pose proof (Z.mul_div_le (w * n) (Z.pos d) Hd) as Hfloor.
  pose proof (Z.div_pos (w * n) (Z.pos d) ltac:(nia) Hd) as Hnonneg.
  revert Hfloor Hnonneg. generalize (w * n / Z.pos d). intros c Hfloor Hc.
  split; [exact Hc|]. nia.
Qed.

(** C9 as amended: for positive [W] and [H], a ratio in (0, 0.5] and
    [4 * radius <= H] (true whenever [W <= H], so for every square image)
    the clipped bounding boxes of the four regions are pairwise disjoint. *)
Theorem bounding_boxes_disjoint (w h : Z) (ratio : Q) :
  0 < w -> 0 < h -> (0 < ratio)%Q -> (ratio <= 1 # 2)%Q ->
  4 * (corner_size_of w ratio / 2) <= h ->
  pairwise_disjoint_boxes w h (corner_regions w h (corner_size_of w ratio)).
Proof.
  intros Hw Hh Hlo Hhi Htall.
  destruct (corner_size_half_width w ratio) as [Hcs0 Hcs];
    [lia | apply Qlt_le_weak, Hlo | exact Hhi |].
  revert Htall Hcs0 Hcs. generalize (corner_size_of w ratio).
  intros cs Htall Hcs0 Hcs.
  assert (Hr0 : 0 <= cs / 2) by (apply Z.div_pos; lia).
  assert (Hr : 2 * (cs / 2) <= cs) by (apply Z.mul_div_le; lia).
  unfold corner_regions.
  revert Htall Hr0 Hr. generalize (cs / 2). intros r Htall Hr0 Hr.
  intros i j r1 r2 Hi Hj Hne x y H1 H2.
  apply in_box_spec in H1, H2.
  destruct i as [|[|[|[|i]]]]; simpl in Hi; try discriminate;
    destruct j as [|[|[|[|j]]]]; simpl in Hj; try discriminate;
    try (exfalso; apply Hne; reflexivity);
    injection Hi as <-; injection Hj as <-; simpl in H1, H2; lia.
Qed.

Lemma width_at_most_height_suffices (w h : Z) (ratio : Q) :
  0 < w -> w <= h -> (0 < ratio)%Q -> (ratio <= 1 # 2)%Q ->
  4 * (corner_size_of w ratio / 2) <= h.
Proof.
  intros Hw Hwh Hlo Hhi.
  destruct (corner_size_half_width w ratio) as [Hcs0 Hcs];
    [lia | apply Qlt_le_weak, Hlo | exact Hhi |].
  revert Hcs0 Hcs. generalize (corner_size_of w ratio). intros cs Hcs0 Hcs.
  pose proof (Z.mul_div_le cs 2 ltac:(lia)). lia.
Qed.

Lemma bounding_boxes_disjoint_witness :
  pairwise_disjoint_boxes 400 400
    (corner_regions 400 400 (corner_size_of 400 (1 # 2))).
Proof.
  apply (bounding_boxes_disjoint 400 400 (1 # 2)); try lia;
    try reflexivity; try (unfold Qle; simpl; lia); vm_compute; discriminate.
Defined.

(** C9 fails as stated: in a 100x10 image with ratio 0.5 the boxes of the
    top-left and bottom-left regions both contain the pixel (0, 0). *)
Lemma flat_image_boxes_overlap :
  0 < 100 /\ 0 < 10 /\ (0 < 1 # 2)%Q /\ (1 # 2 <= 1 # 2)%Q /\
  ~ pairwise_disjoint_boxes 100 10
      (corner_regions 100 10 (corner_size_of 100 (1 # 2))).
Proof.
  repeat split; try lia; try (unfold Qle; simpl; lia).
  intros Hdis.
  apply (Hdis 0%nat 2%nat _ _ eq_refl eq_refl ltac:(lia) 0 0); reflexivity.
Qed.

(** ** The pass as a function of the input pixels *)

Lemma covered_spec (w h : Z) (regs : list region) (x y : Z) :
  covered w h regs x y = true <->
  exists reg, reg ∈ regs /\ in_box w h reg x y = true /\
              in_circle reg x y = true.
Proof.
  unfold covered. rewrite existsb_exists. split.
  - intros (reg & Hin & Hc). exists reg. rewrite candidate_in_box in Hc.
    apply andb_true_iff in Hc. split; [apply list_elem_of_In, Hin | exact Hc].
  - intros (reg & Hin & Hb & Hc). exists reg.
    split; [apply list_elem_of_In, Hin|].
    rewrite candidate_in_box, Hb, Hc. reflexivity.
Qed.

(** X1: the pass keeps the size of the image, and a pixel of the result is
    the input pixel with alpha 0 when it is background and lies in the
    loop range and the circle of some region; otherwise it is the input
    pixel. *)
Theorem pass_result_pixels (img : image) (ratio : Q) (tol : Z) :
  well_formed img ->
  exists ps,
    apply_mask img ratio tol = Ok ps /\
    width (pass_img ps) = width img /\
    height (pass_img ps) = height img /\
    length (data (pass_img ps)) = length (data img) /\
    forall x y p,
      getpixel img x y = Ok p ->
      ((exists reg,
          reg ∈ corner_regions (width img) (height img)
                  (corner_size_of (width img) ratio) /\
          in_box (width img) (height img) reg x y = true /\
          in_circle reg x y = true) ->
       is_background tol p = true ->
       getpixel (pass_img ps) x y = Ok (RGBA (red p) (green p) (blue p) 0)) /\
      (~ (exists reg,
            reg ∈ corner_regions (width img) (height img)
                    (corner_size_of (width img) ratio) /\
            in_box (width img) (height img) reg x y = true /\
            in_circle reg x y = true) \/
       is_background tol p = false ->
       getpixel (pass_img ps) x y = Ok p).
Proof.
  intros Hwf.
  destruct (apply_mask_spec img ratio tol Hwf) as (ps & Hrun & Hm & _).
  exists ps. split; [exact Hrun|].
  destruct Hm as (Hw & Hh & Hwf' & Hpix).
  split; [exact Hw|]. split; [exact Hh|]. split.
  { destruct Hwf as (_ & _ & Hl), Hwf' as (_ & _ & Hl').
    rewrite Hw, Hh, <- Hl in Hl'. lia. }
  intros x y p Hp. rewrite (Hpix x y p Hp). unfold mask_pixel, regions_of.
  split.
  - intros Hcov Hbg. apply covered_spec in Hcov. rewrite Hcov, Hbg. reflexivity.
  - intros [Hcov | Hbg].
    + destruct (covered _ _ _ x y) eqn:Hc; [|reflexivity].
      apply covered_spec in Hc. contradiction.
    + rewrite Hbg, andb_false_r. reflexivity.
Qed.

Lemma pass_result_pixels_witness :
  exists ps,
    apply_mask (blank 16 16 white) (1 # 4) 50 = Ok ps /\
    width (pass_img ps) = width (blank 16 16 white) /\
    height (pass_img ps) = height (blank 16 16 white) /\
    length (data (pass_img ps)) = length (data (blank 16 16 white)) /\
    forall x y p,
      getpixel (blank 16 16 white) x y = Ok p ->
      ((exists reg,
          reg ∈ corner_regions (width (blank 16 16 white))
                  (height (blank 16 16 white))
                  (corner_size_of (width (blank 16 16 white)) (1 # 4)) /\
          in_box (width (blank 16 16 white)) (height (blank 16 16 white))
            reg x y = true /\
          in_circle reg x y = true) ->
       is_background 50 p = true ->
       getpixel (pass_img ps) x y = Ok (RGBA (red p) (green p) (blue p) 0)) /\
      (~ (exists reg,
            reg ∈ corner_regions (width (blank 16 16 white))
                    (height (blank 16 16 white))
                    (corner_size_of (width (blank 16 16 white)) (1 # 4)) /\
            in_box (width (blank 16 16 white)) (height (blank 16 16 white))
              reg x y = true /\
            in_circle reg x y = true) \/
       is_background 50 p = false ->
       getpixel (pass_img ps) x y = Ok p).
Proof.
  apply (pass_result_pixels (blank 16 16 white) (1 # 4) 50),
    blank_well_formed; lia.
Defined.

(** ** Order of the regions, repeated runs, extreme tolerances *)

Lemma getpixel_elem_of (img : image) (x y : Z) (p : pixel) :
  getpixel img x y = Ok p -> p ∈ data img.
Proof.
  unfold getpixel. destruct (in_bounds img x y); [|discriminate].
  destruct (data img !! offset img x y) eqn:Hl; [|discriminate].
  intros [= <-]. eapply list_elem_of_lookup_2, Hl.
Qed.

Lemma masked_by_unique (tol : Z) (h1 h2 : Z -> Z -> bool) (a b c : image) :
  well_formed a -> masked_by tol h1 a b -> masked_by tol h2 a c ->
  (forall x y, in_bounds a x y = true -> h1 x y = h2 x y) -> b = c.
Proof.
  intros Hwf (Hw1 & Hh1 & Hwfb & Hab) (Hw2 & Hh2 & Hwfc & Hac) Hext.
  apply image_ext; try assumption; try congruence.
  intros x y Hin.
  assert (in_bounds a x y = true) as Hina
    by (unfold in_bounds in *; rewrite <- Hw1, <- Hh1; exact Hin).
  destruct (getpixel_total a x y Hwf Hina) as [p Hp].
  rewrite (Hab _ _ _ Hp), (Hac _ _ _ Hp), (Hext _ _ Hina). reflexivity.
Qed.

Lemma covered_Permutation (w h : Z) (regs regs' : list region) (x y : Z) :
  regs ≡ₚ regs' -> covered w h regs x y = covered w h regs' x y.
Proof.
  intros Hperm. unfold covered.
  induction Hperm as [|r l l' _ IH|r1 r2 l|l1 l2 l3 _ IH1 _ IH2]; simpl.
  - reflexivity.
  - rewrite IH. reflexivity.
  - destruct (candidate w h r1 x y), (candidate w h r2 x y); reflexivity.
  - congruence.
Qed.

Lemma total_cleared_Permutation (tol : Z) (img : image)
    (regs regs' : list region) :
  regs ≡ₚ regs' -> total_cleared tol img regs = total_cleared tol img regs'.
Proof.
  intros Hperm. unfold total_cleared.
  induction Hperm as [|r l l' _ IH|r1 r2 l|l1 l2 l3 _ IH1 _ IH2]; simpl;
    lia.
Qed.

Lemma total_cleared_masked (tol : Z) (hit : Z -> Z -> bool) (a b : image)
    (regs : list region) :
  well_formed a -> masked_by tol hit a b ->
  total_cleared tol b regs = total_cleared tol a regs.
Proof.
  intros Hwf Hm. unfold total_cleared.
  induction regs as [|reg regs IH]; simpl; [reflexivity|].
  rewrite IH, (cleared_count_masked _ _ _ _ _ Hwf Hm). reflexivity.
Qed.

(** X2: the order in which the four regions are processed does not matter:
    any reordering of the region list yields the same buffer and the same
    count of cleared pixels, and the same region reports up to order. *)
Theorem region_order_irrelevant (img : image) (ratio : Q) (tol : Z)
    (regs' : list region) :
  well_formed img ->
  regs' ≡ₚ corner_regions (width img) (height img)
             (corner_size_of (width img) ratio) ->
  exists ps ps',
    apply_mask img ratio tol = Ok ps /\
    for_each regs' (process_region (width img) (height img) tol)
      (PassState img 0 [])
    = Ok ps' /\
    pass_img ps' = pass_img ps /\
    pass_transparent ps' = pass_transparent ps /\
    pass_reports ps' ≡ₚ pass_reports ps.
Proof.
  intros Hwf Hperm.
  destruct (apply_mask_spec img ratio tol Hwf) as (ps & Hrun & Hm & Hn & Hr).
  destruct (regions_spec tol regs' (PassState img 0 []) Hwf)
    as (ps' & Hrun' & Hm' & Hn' & Hr').
  simpl in Hrun', Hm', Hn', Hr'. unfold regions_of in *.
  exists ps, ps'. split; [exact Hrun|]. split; [exact Hrun'|].
  split; [|split].
  - apply (masked_by_unique _ _ _ _ _ _ Hwf Hm' Hm).
    intros x y _. apply covered_Permutation, Hperm.
  - rewrite Hn, Hn'. apply total_cleared_Permutation, Hperm.
  - rewrite Hr, Hr'. apply fmap_Permutation, Hperm.
Qed.

Lemma region_order_irrelevant_witness :
  exists ps ps',
    apply_mask (blank 16 16 white) (1 # 4) 50 = Ok ps /\
    for_each
      [ Region 14 14 2 BottomRight; Region 2 14 2 BottomLeft;
        Region 14 2 2 TopRight; Region 2 2 2 TopLeft ]
      (process_region (width (blank 16 16 white))
         (height (blank 16 16 white)) 50)
      (PassState (blank 16 16 white) 0 [])
    = Ok ps' /\
    pass_img ps' = pass_img ps /\
    pass_transparent ps' = pass_transparent ps /\
    pass_reports ps' ≡ₚ pass_reports ps.
Proof.
  apply (region_order_irrelevant (blank 16 16 white) (1 # 4) 50);
    [apply blank_well_formed; lia|].
  symmetry.
  exact (Permutation_rev
           [ Region 2 2 2 TopLeft; Region 14 2 2 TopRight;
             Region 2 14 2 BottomLeft; Region 14 14 2 BottomRight ]).
Defined.

(** X3: a second run on the result prints the same statistics as the
    first: the counters count background pixels inside the regions, also
    those that are transparent already. *)
Theorem statistics_repeat (img : image) (ratio : Q) (tol : Z) :
  well_formed img ->
  exists ps1 ps2,
    apply_mask img ratio tol = Ok ps1 /\
    apply_mask (pass_img ps1) ratio tol = Ok ps2 /\
    pass_reports ps2 = pass_reports ps1 /\
    pass_transparent ps2 = pass_transparent ps1.
Proof.
  intros Hwf.
  destruct (apply_mask_spec img ratio tol Hwf) as (ps1 & Hrun1 & Hm1 & Hn1 & Hr1).
  assert (Hwf1 : well_formed (pass_img ps1)) by apply Hm1.
  destruct (apply_mask_spec (pass_img ps1) ratio tol Hwf1)
    as (ps2 & Hrun2 & _ & Hn2 & Hr2).
  exists ps1, ps2. split; [exact Hrun1|]. split; [exact Hrun2|].
  assert (Hw : width (pass_img ps1) = width img) by apply Hm1.
  assert (Hh : height (pass_img ps1) = height img) by apply Hm1.
  unfold regions_of in *. rewrite Hw, Hh in Hn2, Hr2. split.
  - rewrite Hr2, Hr1. apply list_fmap_ext. intros _ reg _.
    apply (report_of_masked _ _ _ _ _ Hwf Hm1).
  - rewrite Hn2, Hn1. apply (total_cleared_masked _ _ _ _ _ Hwf Hm1).
Qed.

Lemma statistics_repeat_witness :
  exists ps1 ps2,
    apply_mask (blank 16 16 white) (1 # 4) 50 = Ok ps1 /\
    apply_mask (pass_img ps1) (1 # 4) 50 = Ok ps2 /\
    pass_reports ps2 = pass_reports ps1 /\
    pass_transparent ps2 = pass_transparent ps1.
Proof.
  apply (statistics_repeat (blank 16 16 white) (1 # 4) 50),
    blank_well_formed; lia.
Defined.

Lemma count_if_none {A : Type} (f : A -> bool) (l : list A) :
  (forall a, a ∈ l -> f a = false) -> count_if f l = 0.
Proof.
  induction l as [|a l IH]; intros Hf; simpl; [reflexivity|].
  rewrite Hf by left. rewrite IH; [reflexivity|].
  intros b Hb. apply Hf. right. exact Hb.
Qed.

Lemma background_at_elem_of (tol : Z) (img : image) (x y : Z) :
  background_at tol img x y = true ->
  exists p, p ∈ data img /\ is_background tol p = true.
Proof.
  unfold background_at. destruct (getpixel img x y) as [p|e] eqn:Hp;
    [|discriminate].
  intros Hb. exists p. split; [eapply getpixel_elem_of, Hp | exact Hb].
Qed.

(** X4: when no pixel of the image is classified background (as for a
    negative tolerance on 8-bit channels), the pass returns the buffer
    unchanged, counts nothing and every region reports zero cleared
    pixels. *)
Theorem no_background_no_change (img : image) (ratio : Q) (tol : Z) :
  well_formed img ->
  (forall p, p ∈ data img -> is_background tol p = false) ->
  exists ps,
    apply_mask img ratio tol = Ok ps /\
    pass_img ps = img /\
    pass_transparent ps = 0 /\
    Forall (fun r => region_transparent r = 0) (pass_reports ps).
Proof.
  intros Hwf Hnone.
  destruct (apply_mask_spec img ratio tol Hwf) as (ps & Hrun & Hm & Hn & Hr).
  assert (Hcell : forall reg, cleared_count tol img reg = 0).
  { intros reg. apply count_if_none. intros c _.
    destruct (background_at tol img c.2 c.1) eqn:Hb;
      [|apply andb_false_r].
    apply background_at_elem_of in Hb as (p & Hp & Hb).
    rewrite (Hnone p Hp) in Hb. discriminate. }
  exists ps. split; [exact Hrun|]. split; [|split].
  - destruct Hm as (Hw & Hh & Hwf' & Hpix).
    apply image_ext; try assumption.
    intros x y Hin.
    assert (in_bounds img x y = true) as Hin0
      by (unfold in_bounds in *; rewrite <- Hw, <- Hh; exact Hin).
    destruct (getpixel_total img x y Hwf Hin0) as [p Hp].
    rewrite (Hpix x y p Hp), Hp. unfold mask_pixel.
    rewrite (Hnone p (getpixel_elem_of _ _ _ _ Hp)), andb_false_r.
    reflexivity.
  - rewrite Hn.
    assert (Hall : forall regs, total_cleared tol img regs = 0).
    { induction regs as [|reg regs IH]; simpl; [reflexivity|].
      rewrite Hcell, IH. reflexivity. }
    apply Hall.
  - rewrite Hr. apply Forall_fmap, Forall_forall. intros reg _.
    simpl. apply Hcell.
Qed.

Lemma no_background_no_change_witness :
  exists ps,
    apply_mask (blank 16 16 (RGBA 254 254 254 255)) (1 # 4) 0 = Ok ps /\
    pass_img ps = blank 16 16 (RGBA 254 254 254 255) /\
    pass_transparent ps = 0 /\
    Forall (fun r => region_transparent r = 0) (pass_reports ps).
Proof.
  apply (no_background_no_change (blank 16 16 (RGBA 254 254 254 255))
           (1 # 4) 0); [apply blank_well_formed; lia|].
  intros p Hp. apply elem_of_replicate in Hp as [-> _]. reflexivity.
Defined.

(** X5: with a tolerance of 255 or more and channels that are not negative,
    every pixel that passes the distance test inside a region's loop range
    ends with alpha 0, and every region reports as many cleared pixels as
    it tested. *)
Theorem full_tolerance_clears_every_candidate (img : image) (ratio : Q)
    (tol : Z) :
  well_formed img -> 255 <= tol ->
  (forall p, p ∈ data img -> 0 <= red p /\ 0 <= green p /\ 0 <= blue p) ->
  exists ps,
    apply_mask img ratio tol = Ok ps /\
    Forall (fun r => region_transparent r = region_total r)
      (pass_reports ps) /\
    forall x y p,
      getpixel img x y = Ok p ->
      covered (width img) (height img)
        (corner_regions (width img) (height img)
           (corner_size_of (width img) ratio)) x y = true ->
      getpixel (pass_img ps) x y = Ok (RGBA (red p) (green p) (blue p) 0).
Proof.
  intros Hwf Htol Hchan.
  destruct (apply_mask_spec img ratio tol Hwf) as (ps & Hrun & Hm & _ & Hr).
  assert (Hbg : forall p, p ∈ data img -> is_background tol p = true).
  { intros p Hp. destruct (Hchan p Hp) as (Hr' & Hg & Hb).
    unfold is_background. rewrite !andb_true_iff, !Z.leb_le. lia. }
  exists ps. split; [exact Hrun|]. split.
  - rewrite Hr. apply Forall_fmap, Forall_forall. intros reg _. simpl.
    unfold cleared_count, tested_count. apply count_if_ext.
    intros c Hc. apply box_cells_in_bounds in Hc.
    destruct (getpixel_total img c.2 c.1 Hwf Hc) as [p Hp].
    unfold background_at. rewrite Hp.
    rewrite (Hbg p (getpixel_elem_of _ _ _ _ Hp)). apply andb_true_r.
  - intros x y p Hp Hcov. destruct Hm as (_ & _ & _ & Hpix).
    rewrite (Hpix x y p Hp). unfold mask_pixel, regions_of.
    rewrite Hcov, (Hbg p (getpixel_elem_of _ _ _ _ Hp)). reflexivity.
Qed.

Lemma full_tolerance_clears_every_candidate_witness :
  exists ps,
    apply_mask (blank 16 16 (RGBA 0 0 0 255)) (1 # 4) 255 = Ok ps /\
    Forall (fun r => region_transparent r = region_total r)
      (pass_reports ps) /\
    forall x y p,
      getpixel (blank 16 16 (RGBA 0 0 0 255)) x y = Ok p ->
      covered (width (blank 16 16 (RGBA 0 0 0 255)))
        (height (blank 16 16 (RGBA 0 0 0 255)))
        (corner_regions (width (blank 16 16 (RGBA 0 0 0 255)))
           (height (blank 16 16 (RGBA 0 0 0 255)))
           (corner_size_of (width (blank 16 16 (RGBA 0 0 0 255))) (1 # 4)))
        x y = true ->
      getpixel (pass_img ps) x y = Ok (RGBA (red p) (green p) (blue p) 0).
Proof.
  apply (full_tolerance_clears_every_candidate (blank 16 16 (RGBA 0 0 0 255))
           (1 # 4) 255); [apply blank_well_formed; lia | lia |].
  intros p Hp. apply elem_of_replicate in Hp as [-> _]. simpl. lia.
Defined.

(** ** The checking script on the result of the pass *)

Lemma count_loop_spec (img : image) (cs : list (Z * Z)) (n : Z) :
  well_formed img ->
  (forall c, c ∈ cs -> in_bounds img c.2 c.1 = true) ->
  for_each cs (fun c => count_if_transparent img c.1 c.2) n
  = Ok (n + count_if (fun c => transparent_at img c.2 c.1) cs).
Proof.
  intros Hwf. revert n. induction cs as [|[y x] cs IH]; intros n Hcs; simpl.
  - f_equal. lia.
  - destruct (getpixel_total img x y Hwf) as [p Hp].
    { apply (Hcs (y, x)). left. }
    unfold count_if_transparent at 1, transparent_at at 1. rewrite Hp.
    simpl. rewrite IH by (intros c Hc; apply Hcs; right; exact Hc).
    f_equal. destruct (alpha p =? 0); lia.
Qed.

Lemma all_cells_in_bounds (img : image) (c : Z * Z) :
  c ∈ all_cells img <-> in_bounds img c.2 c.1 = true.
Proof.
  destruct c as [y x]. unfold all_cells.
  rewrite elem_of_grid, !elem_of_range, in_bounds_spec. simpl. lia.
Qed.

Lemma count_if_app {A : Type} (f : A -> bool) (l k : list A) :
  count_if f (l ++ k) = count_if f l + count_if f k.
Proof. induction l as [|a l IH]; simpl; [reflexivity|]. rewrite IH. lia. Qed.









Lemma test_icon_processing_run (img : image) :
  well_formed img -> 0 < width img -> 0 < height img ->
  exists chk,
    test_icon_processing img = Ok chk /\
    length (corner_pixels chk) = 4%nat /\
    check_total chk = width img * height img /\
    check_transparent chk
    = count_if (fun c => transparent_at img c.2 c.1) (all_cells img) /\
    check_percentage chk
    = (inject_Z (check_transparent chk) / inject_Z (check_total chk) * 100)%Q.
Proof.
  intros Hwf Hw Hh. unfold test_icon_processing.
  assert (Hin : forall x y, 0 <= x < width img -> 0 <= y < height img ->
                            exists p, getpixel img x y = Ok p).
  { intros x y Hx Hy. apply getpixel_total; [exact Hwf|].
    apply in_bounds_spec. lia. }
  destruct (Hin 0 0) as [p1 Hp1]; [lia..|].
  destruct (Hin (width img - 1) 0) as [p2 Hp2]; [lia..|].
  destruct (Hin 0 (height img - 1)) as [p3 Hp3]; [lia..|].
  destruct (Hin (width img - 1) (height img - 1)) as [p4 Hp4]; [lia..|].
  destruct (Hin (width img / 2) (height img / 2)) as [pc Hpc].
  { split; [apply Z.div_pos; lia | apply Z.div_lt_upper_bound; lia]. }
  { split; [apply Z.div_pos; lia | apply Z.div_lt_upper_bound; lia]. }
  cbn [for_each check_corner]. rewrite Hp1, Hp2, Hp3, Hp4. simpl.
  rewrite Hpc, bind_Ok, for_each_grid.
  fold (all_cells img).
  rewrite (count_loop_spec img (all_cells img) 0 Hwf)
    by (intros c Hc; apply all_cells_in_bounds, Hc).
  rewrite bind_Ok, Z.add_0_l.
  unfold py_truediv.
  destruct (width img * height img =? 0) eqn:Hz; [apply Z.eqb_eq in Hz; nia|].
  eexists. split; [reflexivity|]. simpl. repeat split.
Qed.




(** What the script reports on that image: the corner pixels, the centre
    pixel, two transparent pixels out of six. *)
Example test_icon_processing_sample :
  test_icon_processing sample_3x2
  = Ok (IconCheck
          [ (TopLeft, RGBA 255 255 255 0); (TopRight, RGBA 250 250 250 0);
            (BottomLeft, RGBA 40 50 60 255); (BottomRight, RGBA 1 2 3 255) ]
          (RGBA 70 80 90 255) 6 2 (inject_Z 2 / inject_Z 6 * 100)%Q).
Proof. reflexivity. Qed.



(** ** The reported count against the transparent pixels of the result *)

Lemma count_if_Permutation {A : Type} (f : A -> bool) (l k : list A) :
  l ≡ₚ k -> count_if f l = count_if f k.
Proof.
  intros Hperm.
  induction Hperm as [|a l k _ IH|a b l|l1 l2 l3 _ IH1 _ IH2]; simpl; lia.
Qed.

Lemma count_if_filter {A : Type} (g f : A -> bool) (l : list A) :
  count_if f (List.filter g l) = count_if (fun a => g a && f a) l.
Proof.
  induction l as [|a l IH]; simpl; [reflexivity|].
  destruct (g a); simpl; rewrite IH; reflexivity.
Qed.

Lemma count_if_orb_le {A : Type} (f g : A -> bool) (l : list A) :
  count_if (fun a => f a || g a) l <= count_if f l + count_if g l.
Proof.
  induction l as [|a l IH]; simpl; [lia|]. destruct (f a), (g a); simpl; lia.
Qed.

Lemma count_if_orb_disjoint {A : Type} (f g : A -> bool) (l : list A) :
  (forall a, a ∈ l -> f a = true -> g a = false) ->
  count_if (fun a => f a || g a) l = count_if f l + count_if g l.
Proof.
  induction l as [|a l IH]; intros Hdis; simpl; [lia|].
  rewrite IH by (intros b Hb; apply Hdis; right; exact Hb).
  specialize (Hdis a ltac:(left)).
  destruct (f a), (g a); simpl; lia.
Qed.

Lemma NoDup_grid (ys xs : list Z) : NoDup ys -> NoDup xs -> NoDup (grid ys xs).
Proof.
  intros Hys Hxs. unfold grid. apply NoDup_bind; [| |exact Hys].
  - intros y1 y2 c _ _ H1 H2.
    apply list_elem_of_fmap in H1 as (x1 & -> & _).
    apply list_elem_of_fmap in H2 as (x2 & [= -> _] & _). reflexivity.
  - intros y _. apply NoDup_fmap_2; [|exact Hxs].
    intros x1 x2 [= ->]. reflexivity.
Qed.

Lemma box_cells_filter (img : image) (reg : region) :
  box_cells (width img) (height img) reg
  ≡ₚ List.filter
       (fun c => in_box (width img) (height img) reg c.2 c.1)
       (all_cells img).
Proof.
  apply NoDup_Permutation.
  - unfold box_cells.
    destruct (bounding_box (width img) (height img) reg) as [[[x1 y1] x2] y2].
    apply NoDup_grid; apply NoDup_seqZ.
  - apply NoDup_ListNoDup, List.NoDup_filter, NoDup_ListNoDup.
    apply NoDup_grid; apply NoDup_seqZ.
  - intros [y x]. rewrite (list_elem_of_In (List.filter _ _)), filter_In.
    rewrite <- list_elem_of_In. simpl.
    unfold all_cells, box_cells, in_box, bounding_box.
    rewrite !elem_of_grid, !elem_of_range.
    rewrite !andb_true_iff, !Z.leb_le, !Z.ltb_lt. lia.
Qed.

(** Counting the candidates of a region over the whole image gives the
    count the region loop makes over its box. *)
Lemma count_candidates (tol : Z) (img : image) (reg : region) :
  count_if
    (fun c => candidate (width img) (height img) reg c.2 c.1 &&
              background_at tol img c.2 c.1)
    (all_cells img)
  = cleared_count tol img reg.
Proof.
  unfold cleared_count.
  rewrite (count_if_Permutation _ _ _ (box_cells_filter img reg)).
  rewrite count_if_filter. apply count_if_ext. intros c _.
  rewrite candidate_in_box, andb_assoc. reflexivity.
Qed.

Lemma count_covered_le (tol : Z) (img : image) (regs : list region) :
  count_if
    (fun c => covered (width img) (height img) regs c.2 c.1 &&
              background_at tol img c.2 c.1)
    (all_cells img)
  <= total_cleared tol img regs.
Proof.
  induction regs as [|reg regs IH]; simpl.
  - rewrite count_if_none; [lia | reflexivity].
  - rewrite <- (count_candidates tol img reg).
    etransitivity; [|apply Z.add_le_mono_l, IH].
    etransitivity; [|apply count_if_orb_le].
    apply Z.eq_le_incl, count_if_ext. intros c _.
    apply andb_orb_distrib_l.
Qed.

Lemma pairwise_disjoint_boxes_cons (w h : Z) (reg : region)
    (regs : list region) :
  pairwise_disjoint_boxes w h (reg :: regs) ->
  pairwise_disjoint_boxes w h regs /\
  forall x y, candidate w h reg x y = true -> covered w h regs x y = false.
Proof.
  intros Hdis. split.
  - intros i j r1 r2 Hi Hj Hne. apply (Hdis (S i) (S j)); [exact Hi|exact Hj|lia].
  - intros x y Hc. apply not_true_is_false. intros Hcov.
    apply covered_spec in Hcov as (r' & Hin & Hb' & _).
    apply list_elem_of_lookup in Hin as [j Hj].
    rewrite candidate_in_box in Hc. apply andb_true_iff in Hc as [Hb _].
    apply (Hdis 0%nat (S j) reg r' eq_refl Hj ltac:(lia) x y Hb Hb').
Qed.

Lemma count_covered_disjoint (tol : Z) (img : image) (regs : list region) :
  pairwise_disjoint_boxes (width img) (height img) regs ->
  count_if
    (fun c => covered (width img) (height img) regs c.2 c.1 &&
              background_at tol img c.2 c.1)
    (all_cells img)
  = total_cleared tol img regs.
Proof.
  induction regs as [|reg regs IH]; intros Hdis; simpl.
  - apply count_if_none. reflexivity.
  - apply pairwise_disjoint_boxes_cons in Hdis as [Hrest Hsep].
    rewrite <- (count_candidates tol img reg), <- (IH Hrest).
    rewrite <- count_if_orb_disjoint.
    + apply count_if_ext. intros c _. apply andb_orb_distrib_l.
    + intros c _ Hc. apply andb_true_iff in Hc as [Hc _].
      rewrite (Hsep _ _ Hc). reflexivity.
Qed.

(** After the pass on an opaque image, the transparent pixels are the
    written ones. *)
Lemma transparent_after_pass (tol : Z) (hit : Z -> Z -> bool) (a b : image) :
  well_formed a -> masked_by tol hit a b ->
  (forall p, p ∈ data a -> alpha p <> 0) ->
  count_if (fun c => transparent_at b c.2 c.1) (all_cells b)
  = count_if (fun c => hit c.2 c.1 && background_at tol a c.2 c.1)
      (all_cells a).
Proof.
  intros Hwf (Hw & Hh & _ & Hpix) Hopaque.
  unfold all_cells at 1. rewrite Hw, Hh. fold (all_cells a).
  apply count_if_ext. intros c Hc. apply all_cells_in_bounds in Hc.
  destruct (getpixel_total a c.2 c.1 Hwf Hc) as [p Hp].
  unfold transparent_at, background_at. rewrite (Hpix _ _ _ Hp), Hp.
  unfold mask_pixel.
  destruct (hit c.2 c.1 && is_background tol p); simpl; [reflexivity|].
  apply Z.eqb_neq, Hopaque. eapply getpixel_elem_of, Hp.
Qed.

(** X8: on an opaque image with at least one pixel, the number of
    transparent pixels the checking script finds in the result of the pass
    is at most the count the pass reports: a pixel lying in two regions is
    counted once per region by the pass. *)
Theorem reported_count_bounds_transparent_pixels (img : image) (ratio : Q)
    (tol : Z) :
  well_formed img -> 0 < width img -> 0 < height img ->
  (forall p, p ∈ data img -> alpha p <> 0) ->
  exists ps chk,
    apply_mask img ratio tol = Ok ps /\
    test_icon_processing (pass_img ps) = Ok chk /\
    check_transparent chk <= pass_transparent ps.
Proof.
  intros Hwf Hw Hh Hopaque.
  destruct (apply_mask_spec img ratio tol Hwf) as (ps & Hrun & Hm & Hn & _).
  assert (Hwf' : well_formed (pass_img ps)) by apply Hm.
  assert (Hw' : width (pass_img ps) = width img) by apply Hm.
  assert (Hh' : height (pass_img ps) = height img) by apply Hm.
  destruct (test_icon_processing_run (pass_img ps) Hwf')
    as (chk & Hchk & _ & _ & Hcnt & _); [lia..|].
  exists ps, chk. split; [exact Hrun|]. split; [exact Hchk|].
  rewrite Hcnt, Hn, (transparent_after_pass _ _ _ _ Hwf Hm Hopaque).
  apply count_covered_le.
Qed.

Lemma reported_count_bounds_transparent_pixels_witness :
  exists ps chk,
    apply_mask (blank 4 4 white) (2 # 1) 50 = Ok ps /\
    test_icon_processing (pass_img ps) = Ok chk /\
    check_transparent chk <= pass_transparent ps.
Proof.
  apply (reported_count_bounds_transparent_pixels (blank 4 4 white) (2 # 1) 50);
    [apply blank_well_formed; lia | reflexivity | reflexivity |].
  intros p Hp. apply elem_of_replicate in Hp as [-> _]. discriminate.
Defined.

(** With a ratio above 0.5 the regions overlap and the reported count
    exceeds the number of transparent pixels. *)
Example overlapping_regions_count_twice :
  exists ps chk,
    apply_mask (blank 4 4 white) (2 # 1) 50 = Ok ps /\
    test_icon_processing (pass_img ps) = Ok chk /\
    check_transparent chk = 16 /\ pass_transparent ps = 47.
Proof.
  do 2 eexists. split; [vm_compute; reflexivity|].
  split; [vm_compute; reflexivity|]. split; reflexivity.
Qed.

(** X9: when the boxes of the regions are pairwise disjoint and the input
    is opaque and has at least one pixel, the checking script run on the
    result finds exactly the numbers [make_icon_transparent] printed: the
    same total, the same count of transparent pixels and the same
    percentage. *)
Theorem checking_script_agrees_with_report (img : image) (ratio : Q)
    (tol : Z) :
  well_formed img -> 0 < width img -> 0 < height img ->
  (forall p, p ∈ data img -> alpha p <> 0) ->
  pairwise_disjoint_boxes (width img) (height img)
    (corner_regions (width img) (height img)
       (corner_size_of (width img) ratio)) ->
  exists ps stats chk,
    apply_mask img ratio tol = Ok ps /\
    summarize img ps = Ok stats /\
    test_icon_processing (pass_img ps) = Ok chk /\
    check_total chk = total_pixels stats /\
    check_transparent chk = total_transparent stats /\
    check_percentage chk = transparency_percentage stats.
Proof.
  intros Hwf Hw Hh Hopaque Hdis.
  destruct (apply_mask_spec img ratio tol Hwf) as (ps & Hrun & Hm & Hn & _).
  assert (Hwf' : well_formed (pass_img ps)) by apply Hm.
  assert (Hw' : width (pass_img ps) = width img) by apply Hm.
  assert (Hh' : height (pass_img ps) = height img) by apply Hm.
  destruct (test_icon_processing_run (pass_img ps) Hwf')
    as (chk & Hchk & _ & Htot & Hcnt & Hpct); [lia..|].
  assert (Heq : check_transparent chk = pass_transparent ps).
  { rewrite Hcnt, Hn, (transparent_after_pass _ _ _ _ Hwf Hm Hopaque).
    apply count_covered_disjoint, Hdis. }
  exists ps. unfold summarize, py_truediv.
  destruct (width img * height img =? 0) eqn:Hz; [apply Z.eqb_eq in Hz; nia|].
  do 2 eexists. split; [exact Hrun|]. split; [reflexivity|].
  split; [exact Hchk|]. simpl. rewrite Hpct, Htot, Heq, Hw', Hh'.
  repeat split.
Qed.

Lemma checking_script_agrees_with_report_witness :
  exists ps stats chk,
    apply_mask (blank 16 16 white) (1 # 4) 50 = Ok ps /\
    summarize (blank 16 16 white) ps = Ok stats /\
    test_icon_processing (pass_img ps) = Ok chk /\
    check_total chk = total_pixels stats /\
    check_transparent chk = total_transparent stats /\
    check_percentage chk = transparency_percentage stats.
Proof.
  apply (checking_script_agrees_with_report (blank 16 16 white) (1 # 4) 50);
    [apply blank_well_formed; lia | reflexivity | reflexivity | |].
  - intros p Hp. apply elem_of_replicate in Hp as [-> _]. discriminate.
  - change (pairwise_disjoint_boxes 16 16
              [ Region 2 2 2 TopLeft; Region 14 2 2 TopRight;
                Region 2 14 2 BottomLeft; Region 14 14 2 BottomRight ]).
    intros i j r1 r2 Hi Hj Hne x y H1 H2.
    apply in_box_spec in H1, H2.
    destruct i as [|[|[|[|i]]]]; simpl in Hi; try discriminate;
      destruct j as [|[|[|[|j]]]]; simpl in Hj; try discriminate;
      try (exfalso; apply Hne; reflexivity);
      injection Hi as <-; injection Hj as <-; simpl in H1, H2; lia.
Defined.

(** ** The whole function on readable files *)



Lemma print_accepted (rt : runtime) (m : message) (w : world) :
  (forall out m, console rt out m = Normal ()) ->
  print rt m w = (World (printed w ++ [m]) (saved w), Normal ()).
Proof. intros Hc. unfold print. rewrite Hc. reflexivity. Qed.

(** On a console that takes every message the region loop with its prints
    computes what the loop of the pixel model computes, and only prints. *)
Lemma for_each_io_regions (rt : runtime) (w h tol : Z) (regs : list region) :
  (forall out m, console rt out m = Normal ()) ->
  forall ps ps' world0,
    for_each regs (process_region w h tol) ps = Ok ps' ->
    exists out,
      for_each_io regs (process_region_io rt w h tol) ps world0
      = (World (printed world0 ++ out) (saved world0), Normal ps').
Proof.
  intros Hc. induction regs as [|reg regs IH]; intros ps ps' world0 Hrun.
  - injection Hrun as <-. exists []. rewrite app_nil_r.
    destruct world0; reflexivity.
  - cbn [for_each] in Hrun.
    destruct (process_region w h tol reg ps) as [ps1|] eqn:Hreg;
      [|discriminate].
    cbn [for_each_io]. rewrite io_bind_unfold.
    unfold process_region_io at 1. rewrite io_bind_unfold.
    rewrite print_accepted by exact Hc.
    rewrite io_bind_unfold. unfold lift at 1. rewrite Hreg.
    rewrite io_bind_unfold.
    assert (Hguard :
              exists out1,
                (match last (pass_reports ps1) with
                 | Some stats =>
                     if 0 <? region_total stats
                     then print rt (MsgRegionStats stats) else skip
                 | None => skip
                 end)
                  (World (printed world0 ++ [MsgRegion reg]) (saved world0))
                = (World (printed world0 ++ [MsgRegion reg] ++ out1)
                     (saved world0), Normal ())).
    { destruct (last (pass_reports ps1)) as [stats|].
      - destruct (0 <? region_total stats).
        + rewrite print_accepted by exact Hc. simpl.
          exists [MsgRegionStats stats]. rewrite <- app_assoc. reflexivity.
        + exists []. rewrite app_nil_r. reflexivity.
      - exists []. rewrite app_nil_r. reflexivity. }
    destruct Hguard as [out1 ->]. unfold io_ret at 1.
    destruct (IH ps1 ps'
                (World (printed world0 ++ [MsgRegion reg] ++ out1)
                   (saved world0)) Hrun) as [out2 ->].
    exists ([MsgRegion reg] ++ out1 ++ out2). simpl.
    rewrite <- !app_assoc. reflexivity.
Qed.

(** The [try] block on a readable image and a console that takes every
    message: everything up to the save succeeds. *)
Lemma try_on_readable_image (rt : runtime) (input_path output_path : string)
    (ratio : float) (tol : Z) (img : image) (converted : bool)
    (corner_size : Z) (ps : pass_state) (stats : run_statistics) :
  image_open rt input_path = Normal (img, converted) ->
  corner_size_double (width img) ratio = Ok corner_size ->
  apply_mask_sized img corner_size tol = Ok ps ->
  summarize img ps = Ok stats ->
  (forall out m, console rt out m = Normal ()) ->
  exists out,
    make_icon_transparent_try rt input_path output_path ratio tol
      (World [] None)
    = match image_save rt output_path (pass_img ps) with
      | Normal _ =>
          (World (out ++ [MsgSaved output_path])
             (Some (output_path, pass_img ps)), Normal ())
      | Thrown r => (World out None, Thrown r)
      end.
Proof.
  intros Hopen Hsize Hrun Hstats Hc.
  unfold make_icon_transparent_try.
  rewrite io_bind_unfold. unfold open at 1. rewrite Hopen.
  rewrite io_bind_unfold.
  assert (Hconv :
            exists out0,
              (if converted then print rt MsgConverted else skip)
                (World [] None)
              = (World out0 None, Normal ())).
  { destruct converted.
    - rewrite print_accepted by exact Hc. eexists. reflexivity.
    - eexists. reflexivity. }
  destruct Hconv as [out0 ->].
  rewrite io_bind_unfold. unfold lift at 1. rewrite Hsize.
  rewrite io_bind_unfold, print_accepted by exact Hc.
  rewrite io_bind_unfold, print_accepted by exact Hc.
  rewrite io_bind_unfold.
  unfold apply_mask_sized in Hrun.
  match goal with
  | |- context [for_each_io ?regs ?body ?s ?w0] =>
      destruct (for_each_io_regions rt (width img) (height img) tol regs Hc
                  s ps w0 Hrun) as [out1 ->]
  end.
  rewrite io_bind_unfold. unfold lift at 1. rewrite Hstats.
  do 6 (rewrite io_bind_unfold, print_accepted by exact Hc).
  rewrite io_bind_unfold. unfold save at 1.
  cbn [printed saved].
  destruct (image_save rt output_path (pass_img ps)) as [u|r].
  - rewrite print_accepted by exact Hc. cbn [printed saved].
    eexists. reflexivity.
  - eexists. reflexivity.
Qed.

(** X11: when the input opens as an image with at least one pixel, line
    34 yields a corner size with a radius below [2 ^ 26] and the console
    takes every message, the pass and the statistics succeed.  If the save
    succeeds the call returns after saving the masked image, which has the
    size of the input, and its last message is the one of line 106; if the
    save raises an [Exception] the call returns, nothing is saved and the
    error message is the last one printed; anything else the save raises
    reaches the caller. *)
Theorem readable_image_is_masked_and_saved (rt : runtime)
    (input_path output_path : string) (ratio : float) (tol : Z)
    (img : image) (converted : bool) (corner_size : Z) :
  image_open rt input_path = Normal (img, converted) ->
  well_formed img ->
  0 < width img * height img ->
  corner_size_double (width img) ratio = Ok corner_size ->
  corner_size / 2 < 2 ^ 26 ->
  (forall out m, console rt out m = Normal ()) ->
  exists ps stats,
    apply_mask_double img ratio tol = Ok ps /\
    summarize img ps = Ok stats /\
    width (pass_img ps) = width img /\
    height (pass_img ps) = height img /\
    let run :=
      make_icon_transparent_run rt input_path output_path ratio tol in
    match image_save rt output_path (pass_img ps) with
    | Normal _ =>
        run.2 = None /\
        saved run.1 = Some (output_path, pass_img ps) /\
        last (printed run.1) = Some (MsgSaved output_path)
    | Thrown (Exc e) =>
        run.2 = None /\
        saved run.1 = None /\
        last (printed run.1) = Some (MsgError e)
    | Thrown r =>
        run.2 = Some r /\
        saved run.1 = None
    end.
Proof.
  intros Hopen Hwf Hpos Hsize _ Hc.
  rewrite (apply_mask_double_sized img ratio corner_size tol Hsize).
  destruct (apply_mask_sized_spec img corner_size tol Hwf)
    as (ps & Hrun & Hm & _).
  exists ps.
  assert (Hstats : exists stats, summarize img ps = Ok stats).
  { unfold summarize, py_truediv.
    destruct (width img * height img =? 0) eqn:Hz;
      [apply Z.eqb_eq in Hz; lia|].
    eexists. reflexivity. }
  destruct Hstats as [stats Hstats]. exists stats.
  split; [exact Hrun|]. split; [exact Hstats|].
  split; [apply Hm|]. split; [apply Hm|].
  destruct (try_on_readable_image rt input_path output_path ratio tol img
              converted corner_size ps stats Hopen Hsize Hrun Hstats Hc)
    as [out Htry].
  intros run. subst run. unfold make_icon_transparent_run. rewrite Htry.
  destruct (image_save rt output_path (pass_img ps)) as [u|[e| |]].
  - cbn [fst snd printed saved].
    split; [reflexivity|]. split; [reflexivity|]. apply last_snoc.
  - rewrite print_accepted by exact Hc. cbn [fst snd printed saved].
    split; [reflexivity|]. split; [reflexivity|]. apply last_snoc.
  - cbn [fst snd printed saved]. split; reflexivity.
  - cbn [fst snd printed saved]. split; reflexivity.
Qed.

Lemma readable_image_is_masked_and_saved_witness :
  exists ps stats,
    apply_mask_double (blank 16 16 white) 0.25%float 50 = Ok ps /\
    summarize (blank 16 16 white) ps = Ok stats /\
    width (pass_img ps) = width (blank 16 16 white) /\
    height (pass_img ps) = height (blank 16 16 white) /\
    let run :=
      make_icon_transparent_run
        (Runtime (fun _ => Normal (blank 16 16 white, false))
           (fun _ _ => Normal ()) utf8_console)
        "ic_launcher.png" "ic_launcher_transparent.png" 0.25%float 50 in
    match image_save
            (Runtime (fun _ => Normal (blank 16 16 white, false))
               (fun _ _ => Normal ()) utf8_console)
            "ic_launcher_transparent.png" (pass_img ps) with
    | Normal _ =>
        run.2 = None /\
        saved run.1 = Some ("ic_launcher_transparent.png", pass_img ps) /\
        last (printed run.1) = Some (MsgSaved "ic_launcher_transparent.png")
    | Thrown (Exc e) =>
        run.2 = None /\
        saved run.1 = None /\
        last (printed run.1) = Some (MsgError e)
    | Thrown r =>
        run.2 = Some r /\
        saved run.1 = None
    end.
Proof.
  apply (readable_image_is_masked_and_saved
           (Runtime (fun _ => Normal (blank 16 16 white, false))
              (fun _ _ => Normal ()) utf8_console)
           "ic_launcher.png" "ic_launcher_transparent.png" 0.25%float 50
           (blank 16 16 white) false 4);
    [reflexivity | apply blank_well_formed; lia | reflexivity | reflexivity
    | reflexivity | reflexivity].
Defined.

(** The messages of a run on a white 2x2 image: no region tests a pixel,
    so no region line is printed. *)
Example messages_of_a_run :
  make_icon_transparent_run
    (Runtime (fun _ => Normal (blank 2 2 white, true))
       (fun _ _ => Normal ()) utf8_console)
    "in.png" "out.png" 0.25%float 50
  = (World
       [ MsgConverted; MsgImageSize 2 2; MsgCornerSize 0;
         MsgRegion (Region 0 0 0 TopLeft);
         MsgRegion (Region 2 0 0 TopRight);
         MsgRegion (Region 0 2 0 BottomLeft);
         MsgRegion (Region 2 2 0 BottomRight);
         MsgSummaryTitle; MsgTotalPixels 4; MsgTransparentPixels 0;
         MsgTransparency (inject_Z 0 / inject_Z 4 * 100)%Q;
         MsgTolerance 50; MsgRatio 0.25%float; MsgSaved "out.png" ]
       (Some ("out.png", blank 2 2 white)),
     None).
Proof. reflexivity. Qed.

(** ** The region statistics script on the result of the pass *)

Lemma count_region_cells (img : image) (reg : region) (cs : list (Z * Z))
    (st : region_counters) :
  well_formed img ->
  (forall c, c ∈ cs -> in_bounds img c.2 c.1 = true) ->
  for_each cs (fun c => count_region_pixel img reg c.1 c.2) st
  = Ok (RegionCounters
          (counted_transparent st
           + count_if (fun c => in_circle reg c.2 c.1 &&
                                transparent_at img c.2 c.1) cs)
          (counted_total st
           + count_if (fun c => in_circle reg c.2 c.1) cs)).
Proof.
  intros Hwf. revert st. induction cs as [|[y x] cs IH]; intros st Hcs.
  - simpl. destruct st as [t n]. simpl. f_equal. f_equal; lia.
  - destruct (getpixel_total img x y Hwf) as [p Hp].
    { apply (Hcs (y, x)). left. }
    assert (Hrest : forall c, c ∈ cs -> in_bounds img c.2 c.1 = true)
      by (intros c Hc; apply Hcs; right; exact Hc).
    assert (Hstep :
      count_region_pixel img reg y x st
      = Ok (RegionCounters
              (counted_transparent st
               + (if in_circle reg x y && transparent_at img x y
                  then 1 else 0))
              (counted_total st + (if in_circle reg x y then 1 else 0)))).
    { unfold count_region_pixel, transparent_at.
      fold (in_circle reg x y). rewrite Hp.
      destruct st as [t n].
      destruct (in_circle reg x y); simpl;
        [destruct (alpha p =? 0)|]; simpl; f_equal; f_equal; lia. }
    cbn [for_each count_if fst snd]. rewrite Hstep, (IH _ Hrest).
    simpl. f_equal. f_equal; lia.
Qed.

Lemma count_region_spec (img : image) (reg : region)
    (printed : list region_stats) :
  well_formed img ->
  count_region img reg printed
  = Ok (printed ++
          [RegionStats (corner_name reg)
             (count_if (fun c => in_circle reg c.2 c.1 &&
                                 transparent_at img c.2 c.1)
                (box_cells (width img) (height img) reg))
             (tested_count (width img) (height img) reg)
             (percentage_of
                (count_if (fun c => in_circle reg c.2 c.1 &&
                                    transparent_at img c.2 c.1)
                   (box_cells (width img) (height img) reg))
                (tested_count (width img) (height img) reg))]).
Proof.
  intros Hwf.
  pose proof (count_region_cells img reg
                (box_cells (width img) (height img) reg)
                (RegionCounters 0 0) Hwf (box_cells_in_bounds img reg))
    as Hloop.
  unfold count_region, tested_count. unfold box_cells in *.
  destruct (bounding_box (width img) (height img) reg)
    as [[[x1 y1] x2] y2].
  rewrite for_each_grid, Hloop, bind_Ok. simpl.
  rewrite !Z.add_0_l.
  set (t := count_if _ _). set (n := count_if _ _).
  unfold percentage_of, py_truediv.
  destruct (0 <? n) eqn:Hpos; [|reflexivity].
  apply Z.ltb_lt in Hpos.
  destruct (n =? 0) eqn:Hz; [apply Z.eqb_eq in Hz; lia|]. reflexivity.
Qed.

Lemma region_statistics_list (img : image) (regs : list region)
    (printed : list region_stats) :
  well_formed img ->
  for_each regs (count_region img) printed
  = Ok (printed ++
          ((fun reg =>
              RegionStats (corner_name reg)
                (count_if (fun c => in_circle reg c.2 c.1 &&
                                    transparent_at img c.2 c.1)
                   (box_cells (width img) (height img) reg))
                (tested_count (width img) (height img) reg)
                (percentage_of
                   (count_if (fun c => in_circle reg c.2 c.1 &&
                                       transparent_at img c.2 c.1)
                      (box_cells (width img) (height img) reg))
                   (tested_count (width img) (height img) reg)))
             <$> regs)).
Proof.
  intros Hwf. revert printed.
  induction regs as [|reg regs IH]; intros printed; simpl.
  - rewrite app_nil_r. reflexivity.
  - rewrite (count_region_spec img reg printed Hwf), IH, <- app_assoc.
    reflexivity.
Qed.

Lemma quarter_corner_size (w : Z) : 0 <= w -> corner_size_of w (1 # 4) = w / 4.
Proof.
  intros Hw. unfold corner_size_of, py_int. simpl.
  rewrite Z.mul_1_r. apply Z.quot_div_nonneg; lia.
Qed.

(** X12: run on the result of the pass with the default ratio 0.25 on an
    opaque image, the region statistics of [test_rounded_corners_final.py]
    are the lines the pass printed itself: per region the same tested
    count, the same transparent count and the same percentage (or no line
    when the region tested nothing). *)
Theorem region_statistics_agree_with_pass (img : image) (tol : Z) :
  well_formed img ->
  (forall p, p ∈ data img -> alpha p <> 0) ->
  exists ps,
    apply_mask img (1 # 4) tol = Ok ps /\
    region_statistics (pass_img ps) = Ok (pass_reports ps).
Proof.
  intros Hwf Hopaque.
  destruct (apply_mask_spec img (1 # 4) tol Hwf) as (ps & Hrun & Hm & _ & Hr).
  exists ps. split; [exact Hrun|].
  assert (Hwf' : well_formed (pass_img ps)) by apply Hm.
  assert (Hw' : width (pass_img ps) = width img) by apply Hm.
  assert (Hh' : height (pass_img ps) = height img) by apply Hm.
  unfold region_statistics.
  rewrite (region_statistics_list _ _ [] Hwf'), Hw', Hh', Hr, app_nil_l.
  f_equal. unfold regions_of.
  rewrite (quarter_corner_size (width img)) by apply Hwf.
  change (corner_regions (width img) (height img) (width img / 4))
    with (corner_centers (width img) (height img)).
  apply list_fmap_ext. intros i reg Hi. unfold report_of.
  assert (Hcnt :
    count_if (fun c => in_circle reg c.2 c.1 &&
                       transparent_at (pass_img ps) c.2 c.1)
      (box_cells (width img) (height img) reg)
    = cleared_count tol img reg).
  { unfold cleared_count. apply count_if_ext. intros [y x] Hc. simpl.
    destruct (in_circle reg x y) eqn:Hcirc; [simpl|reflexivity].
    pose proof (box_cells_in_bounds img reg _ Hc) as Hin. simpl in Hin.
    destruct (getpixel_total img x y Hwf Hin) as [p Hp].
    destruct Hm as (_ & _ & _ & Hpix).
    unfold transparent_at, background_at. rewrite (Hpix _ _ _ Hp), Hp.
    assert (Hcov : covered (width img) (height img)
                     (regions_of img (corner_size_of (width img) (1 # 4)))
                     x y = true).
    { apply covered_spec. exists reg. split; [|split; [|exact Hcirc]].
      - unfold regions_of.
        rewrite (quarter_corner_size (width img)) by apply Hwf.
        eapply list_elem_of_lookup_2, Hi.
      - pose proof (candidate_visited (width img) (height img) reg x y) as Hv.
        rewrite Hcirc, andb_true_r, candidate_in_box, Hcirc, andb_true_r in Hv.
        rewrite <- Hv. apply visited_spec, Hc. }
    unfold mask_pixel. rewrite Hcov. simpl.
    destruct (is_background tol p); simpl; [reflexivity|].
    apply Z.eqb_neq, Hopaque. eapply getpixel_elem_of, Hp. }
  rewrite Hcnt. reflexivity.
Qed.

Lemma region_statistics_agree_with_pass_witness :
  exists ps,
    apply_mask (blank 16 16 white) (1 # 4) 50 = Ok ps /\
    region_statistics (pass_img ps) = Ok (pass_reports ps).
Proof.
  apply (region_statistics_agree_with_pass (blank 16 16 white) 50);
    [apply blank_well_formed; lia|].
  intros p Hp. apply elem_of_replicate in Hp as [-> _]. discriminate.
Defined.

(** ** The rectangular check *)










(** ** The UI dump analyser *)

Lemma elements_of_tree_unfold (attrs : gmap string string)
    (children : list xml_node) (depth : Z) (elements : list ui_element) :
  elements_of_tree (XmlNode attrs children) depth elements
  = elements_of_children (depth + 1) children
      (if is_useful (make_element depth attrs)
       then elements ++ [make_element depth attrs] else elements).
Proof.
  simpl. generalize (if is_useful (make_element depth attrs)
                     then elements ++ [make_element depth attrs]
                     else elements).
  induction children as [|c cs IH]; intros acc; [reflexivity|].
  simpl. apply IH.
Qed.

(** The traversal only appends to the list it is given. *)
Lemma elements_of_tree_app (node : xml_node) :
  forall depth elements,
    elements_of_tree node depth elements
    = elements ++ elements_of_tree node depth [].
Proof.
  induction node as [attrs children IH] using xml_node_ind.
  intros depth elements. rewrite !elements_of_tree_unfold.
  assert (Hlist : forall acc,
            elements_of_children (depth + 1) children acc
            = acc ++ elements_of_children (depth + 1) children []).
  { induction IH as [|c cs Hc _ IHcs]; intros acc.
    - simpl. rewrite app_nil_r. reflexivity.
    - unfold elements_of_children in *. simpl.
      rewrite IHcs, (IHcs (elements_of_tree c (depth + 1) [])), Hc.
      rewrite app_assoc. reflexivity. }
  destruct (is_useful (make_element depth attrs)).
  - rewrite (Hlist (elements ++ _)), (Hlist ([] ++ _)), app_nil_l, app_assoc.
    reflexivity.
  - apply Hlist.
Qed.

Lemma elements_of_children_app (depth : Z) (children : list xml_node)
    (elements : list ui_element) :
  elements_of_children depth children elements
  = elements ++ elements_of_children depth children [].
Proof.
  unfold elements_of_children.
  induction children as [|c cs IH] using rev_ind; simpl.
  - rewrite app_nil_r. reflexivity.
  - rewrite !foldl_snoc, IH.
    rewrite (elements_of_tree_app c depth (_ ++ _)),
      (elements_of_tree_app c depth (foldl _ _ _)).
    rewrite app_assoc. reflexivity.
Qed.

Lemma elements_of_children_cons (depth : Z) (c : xml_node) (cs : list xml_node) :
  elements_of_children depth (c :: cs) []
  = elements_of_tree c depth [] ++ elements_of_children depth cs [].
Proof.
  unfold elements_of_children. simpl.
  induction cs as [|c' cs IH] using rev_ind; simpl.
  - rewrite app_nil_r. reflexivity.
  - rewrite !foldl_snoc, IH.
    rewrite (elements_of_tree_app c' depth (_ ++ _)),
      (elements_of_tree_app c' depth (foldl _ _ _)).
    rewrite app_assoc. reflexivity.
Qed.

Lemma node_at_nonneg (root : xml_node) (depth : Z) (node : xml_node) :
  node_at root depth node -> 0 <= depth.
Proof. induction 1; lia. Qed.

Lemma node_at_below_child (attrs : gmap string string)
    (children : list xml_node) (c : xml_node) (depth : Z) (node : xml_node) :
  c ∈ children -> node_at c depth node ->
  node_at (XmlNode attrs children) (depth + 1) node.
Proof.
  intros Hc Hat. induction Hat as [|d a cs child _ IH Hin].
  - apply (node_at_child _ 0 attrs children c); [constructor | exact Hc].
  - apply (node_at_child _ (d + 1) a cs child); assumption.
Qed.

Lemma node_at_cases (attrs : gmap string string) (children : list xml_node)
    (depth : Z) (node : xml_node) :
  node_at (XmlNode attrs children) depth node ->
  (depth = 0 /\ node = XmlNode attrs children) \/
  exists c, c ∈ children /\ node_at c (depth - 1) node.
Proof.
  intros Hat. induction Hat as [|d a cs child Hparent IH Hin].
  - left. split; reflexivity.
  - right. destruct IH as [[-> Heq]|(c & Hc & Hat)].
    + injection Heq as -> ->. exists child. split; [exact Hin|].
      replace (0 + 1 - 1) with 0 by lia. constructor.
    + exists c. split; [exact Hc|].
      replace (d + 1 - 1) with (d - 1 + 1) by lia.
      apply (node_at_child _ (d - 1) a cs child); assumption.
Qed.

(** What the traversal of a node lists, counted from the depth it was
    started with. *)
Lemma elements_of_tree_elem_of (node : xml_node) :
  forall depth e,
    e ∈ elements_of_tree node depth [] <->
    exists k m,
      node_at node k m /\ e = make_element (depth + k) (node_attrib m) /\
      is_useful e = true.
Proof.
  induction node as [attrs children IH] using xml_node_ind.
  intros depth e. rewrite elements_of_tree_unfold, elements_of_children_app.
  assert (Hlist : forall e,
            e ∈ elements_of_children (depth + 1) children [] <->
            exists c k m,
              c ∈ children /\ node_at c k m /\
              e = make_element (depth + 1 + k) (node_attrib m) /\
              is_useful e = true).
  { clear e. induction IH as [|c cs Hc _ IHcs]; intros e.
    - split; [intros H; inversion H|].
      intros (c & _ & _ & H & _). inversion H.
    - rewrite elements_of_children_cons, elem_of_app, Hc, IHcs. split.
      + intros [(k & m & Hat & He & Hu)|(c' & k & m & Hin & Hat & He & Hu)].
        * exists c, k, m. repeat split; try assumption. left.
        * exists c', k, m. repeat split; try assumption. right. exact Hin.
      + intros (c' & k & m & Hin & Hat & He & Hu).
        apply elem_of_cons in Hin as [->|Hin].
        * left. eauto.
        * right. exists c', k, m. auto. }
  rewrite elem_of_app, Hlist. split.
  - intros [Hhead|(c & k & m & Hin & Hat & He & Hu)].
    + exists 0, (XmlNode attrs children).
      destruct (is_useful (make_element depth attrs)) eqn:Hu;
        [|inversion Hhead].
      apply list_elem_of_singleton in Hhead as ->.
      rewrite Z.add_0_r. repeat split; [constructor | exact Hu].
    + exists (k + 1), m. split; [eapply node_at_below_child; eassumption|].
      split; [|exact Hu]. rewrite He. f_equal. lia.
  - intros (k & m & Hat & He & Hu).
    apply node_at_cases in Hat as [[-> ->]|(c & Hc & Hat)].
    + left. simpl in He. rewrite Z.add_0_r in He. subst e. rewrite Hu.
      apply list_elem_of_singleton. reflexivity.
    + right. exists c, (k - 1), m. repeat split; try assumption.
      rewrite He. f_equal. lia.
Qed.

(** A traversal with enough frames for the height of the tree lists the
    elements of the tree; with fewer it raises [RecursionError]. *)
Lemma traverse_node_frames (frames : nat) :
  forall node depth elements,
    traverse_node frames node depth elements
    = if (tree_height node <=? frames)%nat
      then Ok (elements_of_tree node depth elements)
      else Raise RecursionError.
Proof.
  induction frames as [|frames IH]; intros [attrs children] depth elements.
  - reflexivity.
  - rewrite elements_of_tree_unfold.
    cbn [traverse_node tree_height]. cbn zeta.
    generalize (if is_useful (make_element depth attrs)
                then elements ++ [make_element depth attrs] else elements).
    change (S (foldr Nat.max 0 (List.map tree_height children)) <=? S frames)%nat
      with (foldr Nat.max 0 (List.map tree_height children) <=? frames)%nat.
    unfold elements_of_children.
    induction children as [|c cs IHcs]; intros acc; [reflexivity|].
    cbn [for_each List.map foldr foldl]. rewrite IH.
    destruct (tree_height c <=? frames)%nat eqn:Hc.
    + rewrite IHcs.
      apply Nat.leb_le in Hc.
      destruct (foldr Nat.max 0 (List.map tree_height cs) <=? frames)%nat
        eqn:Hcs.
      * apply Nat.leb_le in Hcs.
        replace (Nat.max (tree_height c) _ <=? frames)%nat with true
          by (symmetry; apply Nat.leb_le; lia).
        reflexivity.
      * apply Nat.leb_gt in Hcs.
        replace (Nat.max (tree_height c) _ <=? frames)%nat with false
          by (symmetry; apply Nat.leb_gt; lia).
        reflexivity.
    + apply Nat.leb_gt in Hc.
      replace (Nat.max (tree_height c) _ <=? frames)%nat with false
        by (symmetry; apply Nat.leb_gt; lia).
      reflexivity.
Qed.

Lemma traverse_node_enough_frames (frames : nat) (node : xml_node)
    (depth : Z) (elements : list ui_element) :
  (tree_height node <= frames)%nat ->
  traverse_node frames node depth elements
  = Ok (elements_of_tree node depth elements).
Proof.
  intros H. rewrite traverse_node_frames.
  apply Nat.leb_le in H. rewrite H. reflexivity.
Qed.

Lemma parse_ui_elements_enough_frames (frames : nat)
    (parse : string -> result xml_node) (print_error : exn -> result unit)
    (xml_file : string) (root : xml_node) :
  parse xml_file = Ok root -> (tree_height root <= frames)%nat ->
  parse_ui_elements frames parse print_error xml_file
  = Ok (elements_of_tree root 0 []).
Proof.
  intros Hparse Hframes. unfold parse_ui_elements. rewrite Hparse. simpl.
  rewrite traverse_node_enough_frames by exact Hframes. reflexivity.
Qed.

(** X15: when the dump parses and the tree is not higher than the frames
    left below the recursion limit, the element list holds exactly the
    nodes of the tree that have a text, a description, are clickable or
    whose class contains "EditText", each with the depth at which it sits
    under the root. *)
Theorem parse_ui_elements_lists_useful_nodes (frames : nat)
    (parse : string -> result xml_node) (print_error : exn -> result unit)
    (xml_file : string) (root : xml_node) :
  parse xml_file = Ok root ->
  (tree_height root <= frames)%nat ->
  exists elements,
    parse_ui_elements frames parse print_error xml_file = Ok elements /\
    forall e,
      e ∈ elements <->
      exists depth node,
        node_at root depth node /\
        e = make_element depth (node_attrib node) /\
        is_useful e = true.
Proof.
  intros Hparse Hframes. exists (elements_of_tree root 0 []).
  split; [apply parse_ui_elements_enough_frames; assumption|].
  intros e. rewrite elements_of_tree_elem_of. reflexivity.
Qed.

Lemma parse_ui_elements_lists_useful_nodes_witness :
  exists elements,
    parse_ui_elements 1000
      (fun _ => Ok (XmlNode ∅ [XmlNode {[ "text" := "OK" ]} []]))
      (fun _ => Ok ()) "window_dump.xml"
    = Ok elements /\
    forall e,
      e ∈ elements <->
      exists depth node,
        node_at (XmlNode ∅ [XmlNode {[ "text" := "OK" ]} []]) depth node /\
        e = make_element depth (node_attrib node) /\
        is_useful e = true.
Proof.
  apply (parse_ui_elements_lists_useful_nodes 1000
           (fun _ => Ok (XmlNode ∅ [XmlNode {[ "text" := "OK" ]} []]))
           (fun _ => Ok ()) "window_dump.xml"
           (XmlNode ∅ [XmlNode {[ "text" := "OK" ]} []]));
    [reflexivity | simpl; lia].
Defined.

(** A tree higher than the frames left is not listed at all: the
    [RecursionError] ends in the handler and the list is empty, although
    the tree has a node with a text; when the handler cannot print its
    message, the call raises. *)
Example deep_tree_is_not_listed :
  tree_height (chain 3) = 4%nat /\
  parse_ui_elements 4 (fun _ => Ok (chain 3)) (fun _ => Ok ())
    "window_dump.xml"
  = Ok [make_element 3 {[ "text" := "OK" ]}] /\
  parse_ui_elements 3 (fun _ => Ok (chain 3)) (fun _ => Ok ())
    "window_dump.xml"
  = Ok [] /\
  parse_ui_elements 3 (fun _ => Ok (chain 3))
    (fun _ => Raise UnicodeEncodeError) "window_dump.xml"
  = Raise UnicodeEncodeError.
Proof. repeat split; vm_compute; reflexivity. Qed.

(** X16: the list is in document order: with enough frames for the tree,
    the traversal of each child succeeds on the frames left for it, and the
    element of the node, if it is kept, comes first, followed by what each
    child subtree contributes, in the order of the children and one level
    deeper. *)
Theorem traverse_node_document_order (frames : nat)
    (attrs : gmap string string) (children : list xml_node) (depth : Z) :
  (tree_height (XmlNode attrs children) <= S frames)%nat ->
  exists parts,
    Forall2
      (fun child part => traverse_node frames child (depth + 1) [] = Ok part)
      children parts /\
    traverse_node (S frames) (XmlNode attrs children) depth []
    = Ok ((if is_useful (make_element depth attrs)
           then [make_element depth attrs] else [])
          ++ concat parts).
Proof.
  intros Hheight.
  exists ((fun child => elements_of_tree child (depth + 1) []) <$> children).
  split.
  - apply Forall2_fmap_r, Forall_Forall2_diag, Forall_forall.
    intros child Hchild. apply traverse_node_enough_frames.
    cbn [tree_height] in Hheight.
    assert (Hmax : forall cs : list xml_node,
               child ∈ cs ->
               (tree_height child
                <= foldr Nat.max 0 (List.map tree_height cs))%nat).
    { induction cs as [|c cs IH]; intros Hin; [inversion Hin|].
      simpl. apply elem_of_cons in Hin as [->|Hin]; [lia|].
      specialize (IH Hin). lia. }
    specialize (Hmax children Hchild). lia.
  - rewrite traverse_node_enough_frames by exact Hheight.
    rewrite elements_of_tree_unfold, elements_of_children_app. do 2 f_equal.
    induction children as [|c cs IH]; [reflexivity|].
    rewrite elements_of_children_cons, IH.
    + reflexivity.
    + cbn [tree_height List.map foldr] in *. lia.
Qed.

Lemma traverse_node_document_order_witness :
  exists parts,
    Forall2
      (fun child part => traverse_node 1 child (0 + 1) [] = Ok part)
      [XmlNode {[ "text" := "A" ]} []; XmlNode {[ "text" := "B" ]} []]
      parts /\
    traverse_node 2
      (XmlNode {[ "clickable" := "true" ]}
         [XmlNode {[ "text" := "A" ]} []; XmlNode {[ "text" := "B" ]} []])
      0 []
    = Ok ((if is_useful (make_element 0 {[ "clickable" := "true" ]})
           then [make_element 0 {[ "clickable" := "true" ]}] else [])
          ++ concat parts).
Proof.
  apply (traverse_node_document_order 1 {[ "clickable" := "true" ]}
           [XmlNode {[ "text" := "A" ]} []; XmlNode {[ "text" := "B" ]} []] 0).
  simpl. lia.
Defined.

Lemma find_elements_by_text_filter (lower : string -> string)
    (elements : list ui_element) (search_text : string) :
  find_elements_by_text lower elements search_text
  = List.filter (matches_text lower search_text) elements.
Proof.
  unfold find_elements_by_text.
  induction elements as [|e es IH] using rev_ind; [reflexivity|].
  rewrite foldl_snoc, IH, List.filter_app. simpl.
  fold (matches_text lower search_text e).
  destruct (matches_text lower search_text e);
    rewrite ?app_nil_r; reflexivity.
Qed.

Lemma filter_sublist {A : Type} (f : A -> bool) (l : list A) :
  List.filter f l `sublist_of` l.
Proof.
  induction l as [|a l IH]; simpl; [constructor|].
  destruct (f a); [apply sublist_skip | apply sublist_cons]; exact IH.
Qed.

(** X17: a search returns the elements whose text or description contains
    the search text, both lower-cased, in the order of the list and
    without repeating or inventing any. *)
Theorem find_elements_by_text_selects (lower : string -> string)
    (elements : list ui_element) (search_text : string) :
  find_elements_by_text lower elements search_text `sublist_of` elements /\
  forall e,
    e ∈ find_elements_by_text lower elements search_text <->
    e ∈ elements /\
    (contains (lower search_text) (lower (ui_text e)) = true \/
     contains (lower search_text) (lower (ui_content_desc e)) = true).
Proof.
  rewrite find_elements_by_text_filter. split; [apply filter_sublist|].
  intros e. rewrite list_elem_of_In, filter_In, <- list_elem_of_In.
  unfold matches_text. rewrite orb_true_iff. reflexivity.
Qed.

Lemma contains_empty (s : string) : contains "" s = true.
Proof. destruct s; reflexivity. Qed.

(** X18: searching for the empty text returns the whole list, since the
    empty string occurs in every string. *)
Theorem find_elements_by_empty_text (lower : string -> string)
    (elements : list ui_element) :
  lower "" = "" ->
  find_elements_by_text lower elements "" = elements.
Proof.
  intros Hlower. rewrite find_elements_by_text_filter.
  induction elements as [|e es IH]; [reflexivity|].
  simpl. unfold matches_text at 1. rewrite Hlower, contains_empty. simpl.
  rewrite IH. reflexivity.
Qed.

Lemma find_elements_by_empty_text_witness :
  find_elements_by_text (fun s => s)
    [make_element 0 ∅; make_element 1 {[ "text" := "OK" ]}] ""
  = [make_element 0 ∅; make_element 1 {[ "text" := "OK" ]}].
Proof.
  apply (find_elements_by_empty_text (fun s => s)
           [make_element 0 ∅; make_element 1 {[ "text" := "OK" ]}]).
  reflexivity.
Defined.

(** X19: no clickable node is lost: when the dump parses and the tree
    is not higher than the frames left, the clickable list of the menu
    holds exactly the nodes of the tree whose attribute [clickable] is
    "true". *)
Theorem clickable_elements_complete (frames : nat)
    (parse : string -> result xml_node) (print_error : exn -> result unit)
    (xml_file : string) (root : xml_node) :
  parse xml_file = Ok root ->
  (tree_height root <= frames)%nat ->
  exists elements,
    parse_ui_elements frames parse print_error xml_file = Ok elements /\
    forall e,
      e ∈ clickable_elements elements <->
      exists depth node,
        node_at root depth node /\
        e = make_element depth (node_attrib node) /\
        attr_get (node_attrib node) "clickable" "false" = "true".
Proof.
  intros Hparse Hframes. exists (elements_of_tree root 0 []).
  split; [apply parse_ui_elements_enough_frames; assumption|].
  intros e. unfold clickable_elements.
  rewrite list_elem_of_In, filter_In, <- list_elem_of_In.
  rewrite elements_of_tree_elem_of. split.
  - intros [(k & m & Hat & He & _) Hc]. exists (0 + k), m.
    split; [exact Hat|]. split; [exact He|].
    subst e. simpl in Hc. apply String.eqb_eq, Hc.
  - intros (depth & node & Hat & He & Hc).
    assert (Hclick : ui_clickable e = true)
      by (subst e; simpl; apply String.eqb_eq, Hc).
    split; [|exact Hclick].
    exists depth, node. split; [exact Hat|]. split; [exact He|].
    unfold is_useful. rewrite Hclick, !orb_true_r. reflexivity.
Qed.

Lemma clickable_elements_complete_witness :
  exists elements,
    parse_ui_elements 1000
      (fun _ => Ok (XmlNode ∅ [XmlNode {[ "clickable" := "true" ]} []]))
      (fun _ => Ok ()) "window_dump.xml"
    = Ok elements /\
    forall e,
      e ∈ clickable_elements elements <->
      exists depth node,
        node_at (XmlNode ∅ [XmlNode {[ "clickable" := "true" ]} []])
          depth node /\
        e = make_element depth (node_attrib node) /\
        attr_get (node_attrib node) "clickable" "false" = "true".
Proof.
  apply (clickable_elements_complete 1000
           (fun _ => Ok (XmlNode ∅ [XmlNode {[ "clickable" := "true" ]} []]))
           (fun _ => Ok ()) "window_dump.xml"
           (XmlNode ∅ [XmlNode {[ "clickable" := "true" ]} []]));
    [reflexivity | simpl; lia].
Defined.

(** X20: when the dump parses and the tree is not higher than the frames
    left, the input list of the menu holds every node whose class contains
    "EditText", but a node whose class only contains "Input" is shown
    only if it also has a text, a description or is clickable: the element
    list it is taken from was built without the "Input" test. *)
Theorem input_elements_listed (frames : nat)
    (parse : string -> result xml_node) (print_error : exn -> result unit)
    (xml_file : string) (root : xml_node) :
  parse xml_file = Ok root ->
  (tree_height root <= frames)%nat ->
  exists elements,
    parse_ui_elements frames parse print_error xml_file = Ok elements /\
    forall e,
      e ∈ input_elements elements <->
      exists depth node,
        node_at root depth node /\
        e = make_element depth (node_attrib node) /\
        (contains "EditText" (ui_class e) = true \/
         (contains "Input" (ui_class e) = true /\
          (truthy (ui_text e) = true \/ truthy (ui_content_desc e) = true \/
           ui_clickable e = true))).
Proof.
  intros Hparse Hframes. exists (elements_of_tree root 0 []).
  split; [apply parse_ui_elements_enough_frames; assumption|].
  intros e. unfold input_elements.
  rewrite list_elem_of_In, filter_In, <- list_elem_of_In.
  rewrite elements_of_tree_elem_of. unfold is_useful. split.
  - intros [(k & m & Hat & He & Hu) Hin]. exists (0 + k), m.
    split; [exact Hat|]. split; [exact He|].
    rewrite !orb_true_iff in Hu. rewrite orb_true_iff in Hin. tauto.
  - intros (depth & node & Hat & He & Hcase). split.
    + exists depth, node. split; [exact Hat|]. split; [exact He|].
      rewrite !orb_true_iff. tauto.
    + rewrite orb_true_iff. tauto.
Qed.

Lemma input_elements_listed_witness :
  exists elements,
    parse_ui_elements 1000
      (fun _ =>
         Ok (XmlNode ∅
               [XmlNode {[ "class" := "android.widget.EditText" ]} []]))
      (fun _ => Ok ()) "window_dump.xml"
    = Ok elements /\
    forall e,
      e ∈ input_elements elements <->
      exists depth node,
        node_at
          (XmlNode ∅ [XmlNode {[ "class" := "android.widget.EditText" ]} []])
          depth node /\
        e = make_element depth (node_attrib node) /\
        (contains "EditText" (ui_class e) = true \/
         (contains "Input" (ui_class e) = true /\
          (truthy (ui_text e) = true \/ truthy (ui_content_desc e) = true \/
           ui_clickable e = true))).
Proof.
  apply (input_elements_listed 1000
           (fun _ =>
              Ok (XmlNode ∅
                    [XmlNode {[ "class" := "android.widget.EditText" ]} []]))
           (fun _ => Ok ()) "window_dump.xml"
           (XmlNode ∅
              [XmlNode {[ "class" := "android.widget.EditText" ]} []]));
    [reflexivity | simpl; lia].
Defined.

(** A bare node of class "TextInputLayout" is an input by the test of the
    menu, yet it is not shown. *)
Example bare_input_node_is_not_listed :
  contains "Input" "com.google.android.material.textfield.TextInputLayout"
  = true /\
  (elements ←
     parse_ui_elements 1000
       (fun _ =>
          Ok (XmlNode
                {[ "class" :=
                     "com.google.android.material.textfield.TextInputLayout" ]}
                []))
       (fun _ => Ok ()) "window_dump.xml";
   mret (input_elements elements))
  = Ok [].
Proof. split; vm_compute; reflexivity. Qed.

(** ** The part of the image no region reaches *)

(** X21: a pixel whose column lies between the left and the right boxes,
    or whose row lies between the top and the bottom boxes, is never
    changed, whatever its colour, the ratio and the tolerance. *)
Theorem central_cross_untouched (img : image) (ratio : Q) (tol : Z)
    (x y : Z) (p : pixel) :
  well_formed img ->
  getpixel img x y = Ok p ->
  2 * (corner_size_of (width img) ratio / 2) <= x
    < width img - 2 * (corner_size_of (width img) ratio / 2) \/
  2 * (corner_size_of (width img) ratio / 2) <= y
    < height img - 2 * (corner_size_of (width img) ratio / 2) ->
  exists ps,
    apply_mask img ratio tol = Ok ps /\
    getpixel (pass_img ps) x y = Ok p.
Proof.
  intros Hwf Hp Hband.
  destruct (apply_mask_spec img ratio tol Hwf) as (ps & Hrun & Hm & _).
  exists ps. split; [exact Hrun|].
  destruct Hm as (_ & _ & _ & Hpix). rewrite (Hpix x y p Hp).
  assert (Hcov : covered (width img) (height img)
                   (regions_of img (corner_size_of (width img) ratio)) x y
                 = false).
  { apply not_true_is_false. rewrite covered_spec.
    intros (reg & Hin & Hbox & _). apply in_box_spec in Hbox.
    unfold regions_of, corner_regions in Hin.
    revert Hband Hin. generalize (corner_size_of (width img) ratio / 2).
    intros r Hband Hin.
    repeat (apply elem_of_cons in Hin as [->|Hin]); simpl in Hbox;
      [lia..|inversion Hin]. }
  rewrite Hcov. reflexivity.
Qed.

Lemma central_cross_untouched_witness :
  exists ps,
    apply_mask (blank 16 16 white) (1 # 4) 50 = Ok ps /\
    getpixel (pass_img ps) 8 0 = Ok white.
Proof.
  apply (central_cross_untouched (blank 16 16 white) (1 # 4) 50 8 0 white);
    [apply blank_well_formed; lia | reflexivity |].
  left. split; [vm_compute; discriminate | vm_compute; reflexivity].
Defined.
